(** * Spyder: completion API constants and configuration mixins

    A shallow embedding of

    - [spyder/plugins/completion/api.py]: the protocol constant classes
      ([SymbolKind], [CompletionRequestTypes], [CompletionItemKind]), the
      icon and capability tables, and the default methods of
      [SpyderCompletionProvider];
    - [spyder/api/config/mixins.py]: [SpyderConfigurationAccessor] and
      [SpyderConfigurationObserver];
    - [install_subrepos.py]: [REPOS], [get_python_lsp_version],
      [install_repo] and [main].

    Python dictionaries used as finite maps are [gmap]s; dictionary
    literals whose order is visible (class namespaces, capability tables)
    are association lists.  Effects are explicit: calls made to receivers,
    signals emitted and calls made to the configuration backend are
    returned as traces, exceptions as outcomes. *)

From stdpp Require Import gmap strings list fin_maps.

Local Open Scope Z_scope.
Set Warnings "-register-all".

(** ** Python values stored in the constant tables *)

Inductive PyVal : Type :=
  | PyNone
  | PyBool (b : bool)
  | PyInt (z : Z)
  | PyStr (s : string)
  | PyList (l : list PyVal)
  | PyDict (d : list (string * PyVal))
  | PyDescriptor (name : string).

(** [isinstance(value, int)]: [bool] is a subclass of [int]. *)
Definition isinstance_int (v : PyVal) : bool :=
  match v with
  | PyInt _ | PyBool _ => true
  | _ => false
  end.

(** [d.get(key)] on a dictionary literal kept as an association list. *)
Fixpoint assoc_get {A : Type} (key : string) (d : list (string * A)) : option A :=
  match d with
  | [] => None
  | (k, v) :: rest => if String.eqb k key then Some v else assoc_get key rest
  end.

Definition dict_get (key : string) (v : PyVal) : option PyVal :=
  match v with
  | PyDict d => assoc_get key d
  | _ => None
  end.

Definition dict_keys (v : PyVal) : list string :=
  match v with
  | PyDict d => d.*1
  | _ => []
  end.

(** [v[k1][k2]...] *)
Fixpoint dict_path (path : list string) (v : PyVal) : option PyVal :=
  match path with
  | [] => Some v
  | k :: rest =>
      match dict_get k v with
      | Some v' => dict_path rest v'
      | None => None
      end
  end.

(** The integers held by a list of values, in order. *)
Fixpoint ints_of (l : list PyVal) : list Z :=
  match l with
  | [] => []
  | PyInt z :: rest => z :: ints_of rest
  | _ :: rest => ints_of rest
  end.

(** ** [class SymbolKind] *)

Module SymbolKind.
Definition FILE : Z := 1.
Definition MODULE : Z := 2.
Definition NAMESPACE : Z := 3.
Definition PACKAGE : Z := 4.
Definition CLASS : Z := 5.
Definition METHOD : Z := 6.
Definition PROPERTY : Z := 7.
Definition FIELD : Z := 8.
Definition CONSTRUCTOR : Z := 9.
Definition ENUM : Z := 10.
Definition INTERFACE : Z := 11.
Definition FUNCTION : Z := 12.
Definition VARIABLE : Z := 13.
Definition CONSTANT : Z := 14.
Definition STRING : Z := 15.
Definition NUMBER : Z := 16.
Definition BOOLEAN : Z := 17.
Definition ARRAY : Z := 18.
Definition OBJECT : Z := 19.
Definition KEY : Z := 20.
Definition NULL : Z := 21.
Definition ENUM_MEMBER : Z := 22.
Definition STRUCT : Z := 23.
Definition EVENT : Z := 24.
Definition OPERATOR : Z := 25.
Definition TYPE_PARAMETER : Z := 26.
(* Additional symbol constants (non-standard) *)
Definition BLOCK_COMMENT : Z := 224.
Definition CELL : Z := 225.

(** The attributes assigned in the class body, in the order of the
      body. *)
Definition declared : list (string * PyVal) :=
    [ ("FILE", PyInt FILE); ("MODULE", PyInt MODULE);
      ("NAMESPACE", PyInt NAMESPACE); ("PACKAGE", PyInt PACKAGE);
      ("CLASS", PyInt CLASS); ("METHOD", PyInt METHOD);
      ("PROPERTY", PyInt PROPERTY); ("FIELD", PyInt FIELD);
      ("CONSTRUCTOR", PyInt CONSTRUCTOR); ("ENUM", PyInt ENUM);
      ("INTERFACE", PyInt INTERFACE); ("FUNCTION", PyInt FUNCTION);
      ("VARIABLE", PyInt VARIABLE); ("CONSTANT", PyInt CONSTANT);
      ("STRING", PyInt STRING); ("NUMBER", PyInt NUMBER);
      ("BOOLEAN", PyInt BOOLEAN); ("ARRAY", PyInt ARRAY);
      ("OBJECT", PyInt OBJECT); ("KEY", PyInt KEY); ("NULL", PyInt NULL);
      ("ENUM_MEMBER", PyInt ENUM_MEMBER); ("STRUCT", PyInt STRUCT);
      ("EVENT", PyInt EVENT); ("OPERATOR", PyInt OPERATOR);
      ("TYPE_PARAMETER", PyInt TYPE_PARAMETER);
      ("BLOCK_COMMENT", PyInt BLOCK_COMMENT); ("CELL", PyInt CELL) ].

(** The integer constants of the class. *)
Definition constants : list Z := ints_of declared.*2.
End SymbolKind.

(** What the interpreter itself stores in a class namespace, before and
    after the attributes of the class body ([__module__], [__doc__], ...
    and [__dict__], [__weakref__], ...).  Which entries there are is the
    interpreter's business, so the namespace takes them as a parameter. *)
Record ClassDunders : Type := {
  dunders_before : list (string * PyVal);
  dunders_after : list (string * PyVal)
}.

(** [SymbolKind.__dict__] *)
Definition SymbolKind__dict__ (py : ClassDunders) : list (string * PyVal) :=
  dunders_before py ++ SymbolKind.declared ++ dunders_after py.

(** The namespace entries CPython 3.8 to 3.12 add to [SymbolKind]. *)
Definition cpython_dunders : ClassDunders := {|
  dunders_before :=
    [ ("__module__", PyStr "spyder.plugins.completion.api");
      ("__doc__", PyStr "LSP workspace symbol constants.") ];
  dunders_after :=
    [ ("__dict__", PyDescriptor "__dict__");
      ("__weakref__", PyDescriptor "__weakref__") ]
|}.

(** An interpreter that also records the line of the [class] statement
    in the namespace, as CPython 3.13 does under [__firstlineno__]
    ([SymbolKind] starts at line 33 of the module). *)
Definition lineno_dunders : ClassDunders := {|
  dunders_before :=
    [ ("__module__", PyStr "spyder.plugins.completion.api");
      ("__firstlineno__", PyInt 33);
      ("__doc__", PyStr "LSP workspace symbol constants.") ];
  dunders_after := dunders_after cpython_dunders
|}.

Definition dunders_no_int (py : ClassDunders) : Prop :=
  Forall (λ e, isinstance_int e.2 = false) (dunders_before py ++ dunders_after py).

(** ** [SYMBOL_KIND_ICON] *)

Definition SYMBOL_KIND_ICON : gmap Z string :=
  list_to_map
    [ (SymbolKind.FILE, "file"); (SymbolKind.MODULE, "module");
      (SymbolKind.NAMESPACE, "namespace"); (SymbolKind.PACKAGE, "package");
      (SymbolKind.CLASS, "class"); (SymbolKind.METHOD, "method");
      (SymbolKind.PROPERTY, "property"); (SymbolKind.FIELD, "field");
      (SymbolKind.CONSTRUCTOR, "constructor"); (SymbolKind.ENUM, "enum");
      (SymbolKind.INTERFACE, "interface"); (SymbolKind.FUNCTION, "function");
      (SymbolKind.VARIABLE, "variable"); (SymbolKind.CONSTANT, "constant");
      (SymbolKind.STRING, "string"); (SymbolKind.NUMBER, "number");
      (SymbolKind.BOOLEAN, "boolean"); (SymbolKind.ARRAY, "array");
      (SymbolKind.OBJECT, "object"); (SymbolKind.KEY, "key");
      (SymbolKind.NULL, "null"); (SymbolKind.ENUM_MEMBER, "enum_member");
      (SymbolKind.STRUCT, "struct"); (SymbolKind.EVENT, "event");
      (SymbolKind.OPERATOR, "operator");
      (SymbolKind.TYPE_PARAMETER, "type_parameter");
      (SymbolKind.BLOCK_COMMENT, "blockcomment"); (SymbolKind.CELL, "cell") ].

(** ** Workspace configuration constants *)

Module ResourceOperationKind.
Definition CREATE : string := "create".
Definition RENAME : string := "rename".
Definition DELETE : string := "delete".
End ResourceOperationKind.

Module FailureHandlingKind.
Definition ABORT : string := "abort".
Definition TRANSACTIONAL : string := "transactional".
Definition UNDO : string := "undo".
Definition TEXT_ONLY_TRANSACTIONAL : string := "textOnlyTransactional".
End FailureHandlingKind.

(** ** Client capabilities *)

Definition dynamic_registration : PyVal :=
  PyDict [("dynamicRegistration", PyBool true)].

Definition WORKSPACE_CAPABILITIES (py : ClassDunders) : PyVal :=
  PyDict
    [ ("applyEdit", PyBool true);
      ("workspaceEdit",
        PyDict
          [ ("documentChanges", PyBool true);
            ("resourceOperations",
              PyList [ PyStr ResourceOperationKind.CREATE;
                       PyStr ResourceOperationKind.RENAME;
                       PyStr ResourceOperationKind.DELETE ]);
            ("failureHandling", PyStr FailureHandlingKind.TRANSACTIONAL) ]);
      ("didChangeConfiguration", dynamic_registration);
      ("didChangeWatchedFiles", dynamic_registration);
      ("symbol", dynamic_registration);
      ("executeCommand",
        PyDict
          [ ("dynamicRegistration", PyBool true);
            ("symbolKind",
              PyDict
                [ ("valueSet",
                    PyList (filter (λ value, isinstance_int value = true)
                                   (SymbolKind__dict__ py).*2)) ]) ]);
      ("workspaceFolders", PyBool true);
      ("configuration", PyBool true) ].

Definition TEXT_EDITOR_CAPABILITES : PyVal :=
  PyDict
    [ ("synchronization",
        PyDict
          [ ("dynamicRegistration", PyBool true);
            ("willSave", PyBool true);
            ("willSaveWaitUntil", PyBool true);
            ("didSave", PyBool true) ]);
      ("completion",
        PyDict
          [ ("dynamicRegistration", PyBool true);
            ("completionItem", PyDict [("snippetSupport", PyBool true)]) ]);
      ("hover", dynamic_registration);
      ("signatureHelp", dynamic_registration);
      ("references", dynamic_registration);
      ("documentHighlight", dynamic_registration);
      ("documentSymbol", dynamic_registration);
      ("formatting", dynamic_registration);
      ("rangeFormatting", dynamic_registration);
      ("onTypeFormatting", dynamic_registration);
      ("definition", dynamic_registration);
      ("codeAction", dynamic_registration);
      ("codeLens", dynamic_registration);
      ("documentLink", dynamic_registration);
      ("rename", dynamic_registration) ].

Definition CLIENT_CAPABILITES (py : ClassDunders) : PyVal :=
  PyDict
    [ ("workspace", WORKSPACE_CAPABILITIES py);
      ("textDocument", TEXT_EDITOR_CAPABILITES) ].

(** ** [class CompletionRequestTypes] *)

Module CompletionRequestTypes.
(* General requests *)
Definition INITIALIZE : string := "initialize".
Definition INITIALIZED : string := "initialized".
Definition SHUTDOWN : string := "shutdown".
Definition EXIT : string := "exit".
Definition CANCEL_REQUEST : string := "$/cancelRequest".
(* Window requests *)
Definition WINDOW_SHOW_MESSAGE : string := "window/showMessage".
Definition WINDOW_SHOW_MESSAGE_REQUEST : string := "window/showMessageRequest".
Definition WINDOW_LOG_MESSAGE : string := "window/logMessage".
Definition TELEMETRY_EVENT : string := "telemetry/event".
(* Client capabilities requests *)
Definition CLIENT_REGISTER_CAPABILITY : string := "client/registerCapability".
Definition CLIENT_UNREGISTER_CAPABILITY : string := "client/unregisterCapability".
(* Workspace requests *)
Definition WORKSPACE_FOLDERS : string := "workspace/workspaceFolders".
Definition WORKSPACE_FOLDERS_CHANGE : string := "workspace/didChangeWorkspaceFolders".
Definition WORKSPACE_CONFIGURATION : string := "workspace/configuration".
Definition WORKSPACE_CONFIGURATION_CHANGE : string := "workspace/didChangeConfiguration".
Definition WORKSPACE_WATCHED_FILES_UPDATE : string := "workspace/didChangeWatchedFiles".
Definition WORKSPACE_SYMBOL : string := "workspace/symbol".
Definition WORKSPACE_EXECUTE_COMMAND : string := "workspace/executeCommand".
Definition WORKSPACE_APPLY_EDIT : string := "workspace/applyEdit".
(* Document requests *)
Definition DOCUMENT_PUBLISH_DIAGNOSTICS : string := "textDocument/publishDiagnostics".
Definition DOCUMENT_DID_OPEN : string := "textDocument/didOpen".
Definition DOCUMENT_DID_CHANGE : string := "textDocument/didChange".
Definition DOCUMENT_WILL_SAVE : string := "textDocument/willSave".
Definition DOCUMENT_WILL_SAVE_UNTIL : string := "textDocument/willSaveWaitUntil".
Definition DOCUMENT_DID_SAVE : string := "textDocument/didSave".
Definition DOCUMENT_DID_CLOSE : string := "textDocument/didClose".
Definition DOCUMENT_COMPLETION : string := "textDocument/completion".
Definition COMPLETION_RESOLVE : string := "completionItem/resolve".
Definition DOCUMENT_HOVER : string := "textDocument/hover".
Definition DOCUMENT_SIGNATURE : string := "textDocument/signatureHelp".
Definition DOCUMENT_REFERENCES : string := " textDocument/references".
Definition DOCUMENT_HIGHLIGHT : string := "textDocument/documentHighlight".
Definition DOCUMENT_SYMBOL : string := "textDocument/documentSymbol".
Definition DOCUMENT_FORMATTING : string := "textDocument/formatting".
Definition DOCUMENT_FOLDING_RANGE : string := "textDocument/foldingRange".
Definition DOCUMENT_RANGE_FORMATTING : string := "textDocument/rangeFormatting".
Definition DOCUMENT_ON_TYPE_FORMATTING : string := "textDocument/onTypeFormatting".
Definition DOCUMENT_DEFINITION : string := "textDocument/definition".
Definition DOCUMENT_CODE_ACTION : string := "textDocument/codeAction".
Definition DOCUMENT_CODE_LENS : string := "textDocument/codeLens".
Definition CODE_LENS_RESOLVE : string := "codeLens/resolve".
Definition DOCUMENT_LINKS : string := "textDocument/documentLink".
Definition DOCUMENT_LINK_RESOLVE : string := "documentLink/resolve".
Definition DOCUMENT_RENAME : string := "textDocument/rename".
(* Spyder extensions to LSP *)
Definition DOCUMENT_CURSOR_EVENT : string := "textDocument/cursorEvent".

(** The constants that stand for a method of the protocol: all of the
    class but the one under the comment [Spyder extensions to LSP]. *)
Definition standard : list (string * string) :=
  [ ("INITIALIZE", INITIALIZE); ("INITIALIZED", INITIALIZED);
    ("SHUTDOWN", SHUTDOWN); ("EXIT", EXIT);
    ("CANCEL_REQUEST", CANCEL_REQUEST);
    ("WINDOW_SHOW_MESSAGE", WINDOW_SHOW_MESSAGE);
    ("WINDOW_SHOW_MESSAGE_REQUEST", WINDOW_SHOW_MESSAGE_REQUEST);
    ("WINDOW_LOG_MESSAGE", WINDOW_LOG_MESSAGE);
    ("TELEMETRY_EVENT", TELEMETRY_EVENT);
    ("CLIENT_REGISTER_CAPABILITY", CLIENT_REGISTER_CAPABILITY);
    ("CLIENT_UNREGISTER_CAPABILITY", CLIENT_UNREGISTER_CAPABILITY);
    ("WORKSPACE_FOLDERS", WORKSPACE_FOLDERS);
    ("WORKSPACE_FOLDERS_CHANGE", WORKSPACE_FOLDERS_CHANGE);
    ("WORKSPACE_CONFIGURATION", WORKSPACE_CONFIGURATION);
    ("WORKSPACE_CONFIGURATION_CHANGE", WORKSPACE_CONFIGURATION_CHANGE);
    ("WORKSPACE_WATCHED_FILES_UPDATE", WORKSPACE_WATCHED_FILES_UPDATE);
    ("WORKSPACE_SYMBOL", WORKSPACE_SYMBOL);
    ("WORKSPACE_EXECUTE_COMMAND", WORKSPACE_EXECUTE_COMMAND);
    ("WORKSPACE_APPLY_EDIT", WORKSPACE_APPLY_EDIT);
    ("DOCUMENT_PUBLISH_DIAGNOSTICS", DOCUMENT_PUBLISH_DIAGNOSTICS);
    ("DOCUMENT_DID_OPEN", DOCUMENT_DID_OPEN);
    ("DOCUMENT_DID_CHANGE", DOCUMENT_DID_CHANGE);
    ("DOCUMENT_WILL_SAVE", DOCUMENT_WILL_SAVE);
    ("DOCUMENT_WILL_SAVE_UNTIL", DOCUMENT_WILL_SAVE_UNTIL);
    ("DOCUMENT_DID_SAVE", DOCUMENT_DID_SAVE);
    ("DOCUMENT_DID_CLOSE", DOCUMENT_DID_CLOSE);
    ("DOCUMENT_COMPLETION", DOCUMENT_COMPLETION);
    ("COMPLETION_RESOLVE", COMPLETION_RESOLVE);
    ("DOCUMENT_HOVER", DOCUMENT_HOVER);
    ("DOCUMENT_SIGNATURE", DOCUMENT_SIGNATURE);
    ("DOCUMENT_REFERENCES", DOCUMENT_REFERENCES);
    ("DOCUMENT_HIGHLIGHT", DOCUMENT_HIGHLIGHT);
    ("DOCUMENT_SYMBOL", DOCUMENT_SYMBOL);
    ("DOCUMENT_FORMATTING", DOCUMENT_FORMATTING);
    ("DOCUMENT_FOLDING_RANGE", DOCUMENT_FOLDING_RANGE);
    ("DOCUMENT_RANGE_FORMATTING", DOCUMENT_RANGE_FORMATTING);
    ("DOCUMENT_ON_TYPE_FORMATTING", DOCUMENT_ON_TYPE_FORMATTING);
    ("DOCUMENT_DEFINITION", DOCUMENT_DEFINITION);
    ("DOCUMENT_CODE_ACTION", DOCUMENT_CODE_ACTION);
    ("DOCUMENT_CODE_LENS", DOCUMENT_CODE_LENS);
    ("CODE_LENS_RESOLVE", CODE_LENS_RESOLVE);
    ("DOCUMENT_LINKS", DOCUMENT_LINKS);
    ("DOCUMENT_LINK_RESOLVE", DOCUMENT_LINK_RESOLVE);
    ("DOCUMENT_RENAME", DOCUMENT_RENAME) ].
End CompletionRequestTypes.

(** ** [class CompletionItemKind] *)

Module CompletionItemKind.
Definition TEXT : Z := 1.
Definition METHOD : Z := 2.
Definition FUNCTION : Z := 3.
Definition CONSTRUCTOR : Z := 4.
Definition FIELD : Z := 5.
Definition VARIABLE : Z := 6.
Definition CLASS : Z := 7.
Definition INTERFACE : Z := 8.
Definition MODULE : Z := 9.
Definition PROPERTY : Z := 10.
Definition UNIT : Z := 11.
Definition VALUE : Z := 12.
Definition ENUM : Z := 13.
Definition KEYWORD : Z := 14.
Definition SNIPPET : Z := 15.
Definition COLOR : Z := 16.
Definition FILE : Z := 17.
Definition REFERENCE : Z := 18.

Definition declared : list (string * Z) :=
  [ ("TEXT", TEXT); ("METHOD", METHOD); ("FUNCTION", FUNCTION);
    ("CONSTRUCTOR", CONSTRUCTOR); ("FIELD", FIELD); ("VARIABLE", VARIABLE);
    ("CLASS", CLASS); ("INTERFACE", INTERFACE); ("MODULE", MODULE);
    ("PROPERTY", PROPERTY); ("UNIT", UNIT); ("VALUE", VALUE);
    ("ENUM", ENUM); ("KEYWORD", KEYWORD); ("SNIPPET", SNIPPET);
    ("COLOR", COLOR); ("FILE", FILE); ("REFERENCE", REFERENCE) ].
End CompletionItemKind.

(** ** The Language Server Protocol, as the reference to compare with

    The names and numbers below are those of the protocol specification
    the module's docstring points to; they are not taken from the code.
    Each entry is keyed by the name of the constant of [api.py] that
    stands for it. *)

Module LSP.
Definition methods : list (string * string) :=
  [ ("INITIALIZE", "initialize"); ("INITIALIZED", "initialized");
    ("SHUTDOWN", "shutdown"); ("EXIT", "exit");
    ("CANCEL_REQUEST", "$/cancelRequest");
    ("WINDOW_SHOW_MESSAGE", "window/showMessage");
    ("WINDOW_SHOW_MESSAGE_REQUEST", "window/showMessageRequest");
    ("WINDOW_LOG_MESSAGE", "window/logMessage");
    ("TELEMETRY_EVENT", "telemetry/event");
    ("CLIENT_REGISTER_CAPABILITY", "client/registerCapability");
    ("CLIENT_UNREGISTER_CAPABILITY", "client/unregisterCapability");
    ("WORKSPACE_FOLDERS", "workspace/workspaceFolders");
    ("WORKSPACE_FOLDERS_CHANGE", "workspace/didChangeWorkspaceFolders");
    ("WORKSPACE_CONFIGURATION", "workspace/configuration");
    ("WORKSPACE_CONFIGURATION_CHANGE", "workspace/didChangeConfiguration");
    ("WORKSPACE_WATCHED_FILES_UPDATE", "workspace/didChangeWatchedFiles");
    ("WORKSPACE_SYMBOL", "workspace/symbol");
    ("WORKSPACE_EXECUTE_COMMAND", "workspace/executeCommand");
    ("WORKSPACE_APPLY_EDIT", "workspace/applyEdit");
    ("DOCUMENT_PUBLISH_DIAGNOSTICS", "textDocument/publishDiagnostics");
    ("DOCUMENT_DID_OPEN", "textDocument/didOpen");
    ("DOCUMENT_DID_CHANGE", "textDocument/didChange");
    ("DOCUMENT_WILL_SAVE", "textDocument/willSave");
    ("DOCUMENT_WILL_SAVE_UNTIL", "textDocument/willSaveWaitUntil");
    ("DOCUMENT_DID_SAVE", "textDocument/didSave");
    ("DOCUMENT_DID_CLOSE", "textDocument/didClose");
    ("DOCUMENT_COMPLETION", "textDocument/completion");
    ("COMPLETION_RESOLVE", "completionItem/resolve");
    ("DOCUMENT_HOVER", "textDocument/hover");
    ("DOCUMENT_SIGNATURE", "textDocument/signatureHelp");
    ("DOCUMENT_REFERENCES", "textDocument/references");
    ("DOCUMENT_HIGHLIGHT", "textDocument/documentHighlight");
    ("DOCUMENT_SYMBOL", "textDocument/documentSymbol");
    ("DOCUMENT_FORMATTING", "textDocument/formatting");
    ("DOCUMENT_FOLDING_RANGE", "textDocument/foldingRange");
    ("DOCUMENT_RANGE_FORMATTING", "textDocument/rangeFormatting");
    ("DOCUMENT_ON_TYPE_FORMATTING", "textDocument/onTypeFormatting");
    ("DOCUMENT_DEFINITION", "textDocument/definition");
    ("DOCUMENT_CODE_ACTION", "textDocument/codeAction");
    ("DOCUMENT_CODE_LENS", "textDocument/codeLens");
    ("CODE_LENS_RESOLVE", "codeLens/resolve");
    ("DOCUMENT_LINKS", "textDocument/documentLink");
    ("DOCUMENT_LINK_RESOLVE", "documentLink/resolve");
    ("DOCUMENT_RENAME", "textDocument/rename") ].

(** [SymbolKind] of the protocol: File = 1 ... TypeParameter = 26. *)
Definition symbol_kinds : list (string * Z) :=
  [ ("FILE", 1); ("MODULE", 2); ("NAMESPACE", 3); ("PACKAGE", 4);
    ("CLASS", 5); ("METHOD", 6); ("PROPERTY", 7); ("FIELD", 8);
    ("CONSTRUCTOR", 9); ("ENUM", 10); ("INTERFACE", 11); ("FUNCTION", 12);
    ("VARIABLE", 13); ("CONSTANT", 14); ("STRING", 15); ("NUMBER", 16);
    ("BOOLEAN", 17); ("ARRAY", 18); ("OBJECT", 19); ("KEY", 20);
    ("NULL", 21); ("ENUM_MEMBER", 22); ("STRUCT", 23); ("EVENT", 24);
    ("OPERATOR", 25); ("TYPE_PARAMETER", 26) ].

(** [CompletionItemKind] of the protocol: Text = 1 ... Reference = 18
    (the protocol goes on to 25; the class stops at 18). *)
Definition completion_item_kinds : list (string * Z) :=
  [ ("TEXT", 1); ("METHOD", 2); ("FUNCTION", 3); ("CONSTRUCTOR", 4);
    ("FIELD", 5); ("VARIABLE", 6); ("CLASS", 7); ("INTERFACE", 8);
    ("MODULE", 9); ("PROPERTY", 10); ("UNIT", 11); ("VALUE", 12);
    ("ENUM", 13); ("KEYWORD", 14); ("SNIPPET", 15); ("COLOR", 16);
    ("FILE", 17); ("REFERENCE", 18) ].
End LSP.

(** The constants of a class that differ from the reference: the entries
    of [code] whose value is not the one [reference] gives its name. *)
Definition mismatches {A : Type} `{EqDecision A}
    (code reference : list (string * A)) : list (string * A) :=
  filter (λ e, assoc_get e.1 reference ≠ Some e.2) code.

(** The integer constants declared in [SymbolKind], by name. *)
Fixpoint int_entries (l : list (string * PyVal)) : list (string * Z) :=
  match l with
  | [] => []
  | (name, PyInt z) :: rest => (name, z) :: int_entries rest
  | _ :: rest => int_entries rest
  end.

(** ** [class SpyderCompletionProvider]: signals and default methods *)

Inductive ProviderSignal : Type :=
  | sig_response_ready
  | sig_provider_ready
  | sig_language_client_available
  | sig_disable_provider
  | sig_show_widget
  | sig_call_statusbar
  | sig_exception_occurred.

(** One call of the [emit] method of a signal. *)
Record Emission : Type := Emit {
  signal : ProviderSignal;
  arguments : list PyVal
}.

(** A provider object: [main] and [config] are set by [__init__],
    [COMPLETION_CLIENT_NAME] is the class attribute ([None] in the base
    class, a string in a provider that names itself). *)
Record SpyderCompletionProvider : Type := {
  main : PyVal;
  config : PyVal;
  COMPLETION_CLIENT_NAME : option string
}.

Definition py_of_name (name : option string) : PyVal :=
  match name with
  | Some s => PyStr s
  | None => PyNone
  end.

(** The lifecycle hooks a provider offers to the completion plugin.  A
    method gets the provider and returns the provider after the call, the
    signals emitted during it and its result. *)
Class ProviderLifecycle : Type := {
  start : SpyderCompletionProvider → SpyderCompletionProvider * list Emission;
  shutdown : SpyderCompletionProvider → SpyderCompletionProvider * list Emission;
  update_configuration :
    SpyderCompletionProvider → PyVal → SpyderCompletionProvider * list Emission;
  start_provider : SpyderCompletionProvider → string → bool;
  can_close : SpyderCompletionProvider → bool
}.

(** The methods as [SpyderCompletionProvider] itself defines them. *)
#[export] Instance default_lifecycle : ProviderLifecycle := {|
  (* self.sig_provider_ready.emit(self.COMPLETION_CLIENT_NAME) *)
  start self :=
    (self, [Emit sig_provider_ready [py_of_name (COMPLETION_CLIENT_NAME self)]]);
  (* pass *)
  shutdown self := (self, []);
  (* pass *)
  update_configuration self config := (self, []);
  (* return False *)
  start_provider self language := false;
  (* return True *)
  can_close self := true
|}.

(** The calls the completion plugin makes on a provider during its life. *)
Inductive LifecycleCall : Type :=
  | CallStart
  | CallShutdown
  | CallUpdateConfiguration (new_config : PyVal).

(** One call, made through the interface. *)
Definition lifecycle_step `{ProviderLifecycle}
    (self : SpyderCompletionProvider) (c : LifecycleCall)
    : SpyderCompletionProvider * list Emission :=
  match c with
  | CallStart => start self
  | CallShutdown => shutdown self
  | CallUpdateConfiguration new_config => update_configuration self new_config
  end.

(** A series of calls: the provider afterwards and the signals emitted, in
    order. *)
Fixpoint run_lifecycle `{ProviderLifecycle}
    (self : SpyderCompletionProvider) (calls : list LifecycleCall)
    : SpyderCompletionProvider * list Emission :=
  match calls with
  | [] => (self, [])
  | c :: rest =>
      let '(self, emitted) := lifecycle_step self c in
      let '(self, more) := run_lifecycle self rest in
      (self, emitted ++ more)
  end.

(** * [spyder/api/config/mixins.py] *)

(** ** Keys, receivers, exceptions *)

(** A section as the code passes it around: a name, or [None]. *)
Abbreviation SectionKey := (option string).

(** [ConfigurationKey]: the name of an option, or a tuple path. *)
Inductive ConfigurationKey : Type :=
  | OptionName (name : string)
  | OptionPath (path : list string).

#[export] Instance ConfigurationKey_eq_dec : EqDecision ConfigurationKey.
Proof. solve_decision. Defined.

#[export] Instance ConfigurationKey_countable : Countable ConfigurationKey.
Proof.
  refine (inj_countable'
    (λ k, match k with OptionName s => inl s | OptionPath p => inr p end)
    (λ x, match x with inl s => OptionName s | inr p => OptionPath p end) _).
  by intros [].
Defined.

(** What is stored in a list of receivers: the name of a method of the
    object (put there by [_gather_observers]) or a callable (put there by
    [add_configuration_observer]). *)
Inductive Receiver : Type :=
  | MethodName (name : string)
  | Callable (id : nat).

#[export] Instance Receiver_eq_dec : EqDecision Receiver.
Proof. solve_decision. Defined.

(** Exception classes: those of Python's [builtins], and all others, given
    by module and name. *)
Inductive ExcClass : Type :=
  | Builtin (name : string)
  | Defined_in (module name : string).

Definition AttributeError : ExcClass := Builtin "AttributeError".

Definition is_builtin (e : ExcClass) : bool :=
  match e with
  | Builtin _ => true
  | Defined_in _ _ => false
  end.

(** How a call ends: it returns, it executes a [raise] statement of its
    own, or an exception of something it called passes through it. *)
Inductive Outcome (A : Type) : Type :=
  | Returned (result : A)
  | Raises (e : ExcClass)
  | Propagates (e : ExcClass).
Arguments Returned {A} result.
Arguments Raises {A} e.
Arguments Propagates {A} e.

(** ** [class SpyderConfigurationAccessor] *)

(** The class attribute the mixin reads. *)
Record SpyderConfigurationAccessor : Type := {
  CONF_SECTION : SectionKey
}.

Module Accessor.
Section WithBackend.

(** [Value]: what an option holds.  [Reply]: what the configuration
    manager [CONF] hands back.  [ConfState]: the state of [CONF]. *)
Context {Value Reply ConfState : Type}.

(** The calls the mixin makes on [spyder.config.manager.CONF]. *)
Inductive ConfCall : Type :=
  | CONF_get (section : string) (opt : ConfigurationKey)
      (default : option Value) (secure : bool)
  | CONF_options (section : string)
  | CONF_set (section : string) (opt : ConfigurationKey) (value : Value)
      (recursive_notification secure : bool)
  | CONF_remove_option (section : string) (opt : ConfigurationKey)
      (secure : bool)
  | CONF_get_default (section : string) (opt : ConfigurationKey).

(** The configuration manager is not part of the module: a call changes
    its state and returns a reply or raises. *)
Variable CONF : ConfCall → ConfState → ConfState * (Reply + ExcClass).

(** The result of an accessor: the state of [CONF] afterwards, the calls
    made on [CONF], and how the accessor ended. *)
Record Run : Type := {
  conf_after : ConfState;
  conf_calls : list ConfCall;
  outcome : Outcome (option Reply)
}.

Definition call_CONF (c : ConfCall) (conf : ConfState) : Run :=
  let '(conf', r) := CONF c conf in
  {| conf_after := conf';
     conf_calls := [c];
     outcome := match r with
                | inl reply => Returned (Some reply)
                | inr e => Propagates e
                end |}.

(** A method that calls [CONF] without a [return]: its result is [None]. *)
Definition discard_reply (r : Run) : Run :=
  {| conf_after := conf_after r;
     conf_calls := conf_calls r;
     outcome := match outcome r with
                | Returned _ => Returned None
                | other => other
                end |}.

(** [raise AttributeError('A SpyderConfigurationAccessor must define a
    `CONF_SECTION` class attribute!')] *)
Definition raise_no_section (conf : ConfState) : Run :=
  {| conf_after := conf; conf_calls := []; outcome := Raises AttributeError |}.

(** [section = self.CONF_SECTION if section is None else section] *)
Definition effective_section (self : SpyderConfigurationAccessor)
    (section : SectionKey) : SectionKey :=
  match section with
  | None => CONF_SECTION self
  | Some s => Some s
  end.

Definition get_conf (self : SpyderConfigurationAccessor)
    (opt : ConfigurationKey) (default : option Value)
    (section : SectionKey) (secure : bool) (conf : ConfState) : Run :=
  match effective_section self section with
  | None => raise_no_section conf
  | Some section => call_CONF (CONF_get section opt default secure) conf
  end.

Definition get_conf_options (self : SpyderConfigurationAccessor)
    (section : SectionKey) (conf : ConfState) : Run :=
  match effective_section self section with
  | None => raise_no_section conf
  | Some section => call_CONF (CONF_options section) conf
  end.

Definition set_conf (self : SpyderConfigurationAccessor)
    (opt : ConfigurationKey) (value : Value) (section : SectionKey)
    (recursive_notification secure : bool) (conf : ConfState) : Run :=
  match effective_section self section with
  | None => raise_no_section conf
  | Some section =>
      discard_reply
        (call_CONF (CONF_set section opt value recursive_notification secure)
                   conf)
  end.

Definition remove_conf (self : SpyderConfigurationAccessor)
    (opt : ConfigurationKey) (section : SectionKey) (secure : bool)
    (conf : ConfState) : Run :=
  match effective_section self section with
  | None => raise_no_section conf
  | Some section =>
      discard_reply (call_CONF (CONF_remove_option section opt secure) conf)
  end.

Definition get_conf_default (self : SpyderConfigurationAccessor)
    (opt : ConfigurationKey) (section : SectionKey) (conf : ConfState) : Run :=
  match effective_section self section with
  | None => raise_no_section conf
  | Some section => call_CONF (CONF_get_default section opt) conf
  end.

(** The five accessor operations, applied to their arguments. *)
Inductive AccessorCall : Type :=
  | Get_conf (opt : ConfigurationKey) (default : option Value)
      (section : SectionKey) (secure : bool)
  | Get_conf_options (section : SectionKey)
  | Set_conf (opt : ConfigurationKey) (value : Value) (section : SectionKey)
      (recursive_notification secure : bool)
  | Remove_conf (opt : ConfigurationKey) (section : SectionKey) (secure : bool)
  | Get_conf_default (opt : ConfigurationKey) (section : SectionKey).

Definition section_argument (c : AccessorCall) : SectionKey :=
  match c with
  | Get_conf _ _ section _ => section
  | Get_conf_options section => section
  | Set_conf _ _ section _ _ => section
  | Remove_conf _ section _ => section
  | Get_conf_default _ section => section
  end.

Definition run (self : SpyderConfigurationAccessor) (c : AccessorCall)
    (conf : ConfState) : Run :=
  match c with
  | Get_conf opt default section secure =>
      get_conf self opt default section secure conf
  | Get_conf_options section => get_conf_options self section conf
  | Set_conf opt value section recursive_notification secure =>
      set_conf self opt value section recursive_notification secure conf
  | Remove_conf opt section secure => remove_conf self opt section secure conf
  | Get_conf_default opt section => get_conf_default self opt section conf
  end.

End WithBackend.
End Accessor.

(** ** [class SpyderConfigurationObserver] *)

(** A class that mixes [SpyderConfigurationObserver] in, as far as the
    mixin looks at it: its [CONF_SECTION]; the value of [qtpy.PYSIDE6];
    and, for every name of [dir(self)] in the order of [dir], the
    [_conf_listen] attribute of [getattr(self, name, None)] when it has
    one, which is the list of [(section, option)] pairs left there by the
    decorator [on_conf_change]. *)
Record ObserverClass : Type := {
  accessor :> SpyderConfigurationAccessor;
  PYSIDE6 : bool;
  members : list (string * option (list (SectionKey * ConfigurationKey)))
}.

(** The two attributes [__init__] gives the object. *)
Record ObserverState : Type := {
  _configuration_listeners :
    gmap SectionKey (gmap ConfigurationKey (list Receiver));
  _multi_option_listeners : gset string
}.

(** [self._configuration_listeners.get(section, {}).get(option, [])] *)
Definition receivers_of (self : ObserverState)
    (section : SectionKey) (opt : ConfigurationKey) : list Receiver :=
  let section_receivers :=
    default ∅ (_configuration_listeners self !! section) in
  default [] (section_receivers !! opt).

(** [_add_listener].  The dictionaries and the list it gets from the
    registry are the registry's own objects, changed in place and stored
    back under the same keys; no object is stored under two keys, so
    replacing the entries in a persistent map has the same effect. *)
Definition _add_listener (func : Receiver) (opt : ConfigurationKey)
    (section : SectionKey) (self : ObserverState) : ObserverState :=
  let section_listeners :=
    default ∅ (_configuration_listeners self !! section) in
  let option_listeners := default [] (section_listeners !! opt) in
  let option_listeners := option_listeners ++ [func] in
  let section_listeners := <[opt := option_listeners]> section_listeners in
  {| _configuration_listeners :=
       <[section := section_listeners]> (_configuration_listeners self);
     _multi_option_listeners := _multi_option_listeners self |}.

(** The names [_gather_observers] passes over when [PYSIDE6] is set. *)
Definition pyside6_skipped : list string := ["painters"; "restart_kernel"].

(** The body of the loop of [_gather_observers] for one name of
    [dir(self)]. *)
Definition gather_member (cls : ObserverClass) (self : ObserverState)
    (member : string * option (list (SectionKey * ConfigurationKey)))
    : ObserverState :=
  let '(method_name, conf_listen) := member in
  if PYSIDE6 cls && bool_decide (method_name ∈ pyside6_skipped) then self
  else
    match conf_listen with
    | None => self
    | Some info =>
        let self :=
          if bool_decide (1 < length info)%nat then
            {| _configuration_listeners := _configuration_listeners self;
               _multi_option_listeners :=
                 _multi_option_listeners self ∪ {[method_name]} |}
          else self in
        foldl (λ self '(section, opt),
                 _add_listener (MethodName method_name) opt section self)
              self info
    end.

Definition _gather_observers (cls : ObserverClass) (self : ObserverState)
    : ObserverState :=
  foldl (gather_member cls) self (members cls).

(** The loop of [_merge_none_observers]: for every option of
    [default_selectors], the receivers declared without a section go in
    front of those [section_selectors] has for the option.  Every option
    is visited once and only its own entry is written, so the values read
    are those from before the loop, also when both names are bound to the
    same dictionary ([CONF_SECTION] being [None]). *)
Definition merge_selectors
    (default_selectors section_selectors : gmap ConfigurationKey (list Receiver))
    : gmap ConfigurationKey (list Receiver) :=
  map_fold
    (λ opt default_option_receivers section_selectors,
       let section_option_receivers := default [] (section_selectors !! opt) in
       let merged_receivers :=
         default_option_receivers ++ section_option_receivers in
       <[opt := merged_receivers]> section_selectors)
    section_selectors default_selectors.

Definition _merge_none_observers (cls : ObserverClass) (self : ObserverState)
    : ObserverState :=
  let default_selectors := default ∅ (_configuration_listeners self !! None) in
  let section_selectors :=
    default ∅ (_configuration_listeners self !! CONF_SECTION cls) in
  let section_selectors := merge_selectors default_selectors section_selectors in
  {| _configuration_listeners :=
       delete None
         (<[CONF_SECTION cls := section_selectors]>
            (_configuration_listeners self));
     _multi_option_listeners := _multi_option_listeners self |}.

(** The [(section, option)] pairs [__init__] hands to
    [CONF.observe_configuration], by section and option.  (The order of the
    calls is that of the dictionaries, which the maps do not keep.) *)
Definition observed_pairs (cls : ObserverClass) (self : ObserverState)
    : list (SectionKey * ConfigurationKey) :=
  section ← (map_to_list (_configuration_listeners self)).*1;
  let section :=
    match section with None => CONF_SECTION cls | Some s => Some s end in
  let observed_options :=
    default ∅ (_configuration_listeners self !! section) in
  opt ← (map_to_list observed_options).*1;
  [(section, opt)].

(** What [__init__] does: whether it warned about a missing
    [CONF_SECTION], the attributes of the object, and the calls of
    [CONF.observe_configuration]. *)
Record Initialised : Type := {
  warned : bool;
  object : ObserverState;
  observing : list (SectionKey * ConfigurationKey)
}.

Definition __init__ (cls : ObserverClass) : Initialised :=
  let self :=
    {| _configuration_listeners := ∅; _multi_option_listeners := ∅ |} in
  let self := _gather_observers cls self in
  let self := _merge_none_observers cls self in
  {| warned := bool_decide (CONF_SECTION cls = None);
     object := self;
     observing := observed_pairs cls self |}.

(** [add_configuration_observer]: the object afterwards and the pair
    handed to [CONF.observe_configuration]. *)
Definition add_configuration_observer (cls : ObserverClass)
    (func : Receiver) (opt : ConfigurationKey) (section : SectionKey)
    (self : ObserverState) : ObserverState * (SectionKey * ConfigurationKey) :=
  let section :=
    match section with None => CONF_SECTION cls | Some s => Some s end in
  (_add_listener func opt section self, (section, opt)).

(** ** The registrations of an object, in the order they are made *)

(** One call [_add_listener(func, option, section)]. *)
Record Registration : Type := {
  reg_func : Receiver;
  reg_option : ConfigurationKey;
  reg_section : SectionKey
}.

(** The names of [dir(self)] that [_gather_observers] looks at. *)
Definition gathered (cls : ObserverClass) (method_name : string) : bool :=
  negb (PYSIDE6 cls && bool_decide (method_name ∈ pyside6_skipped)).

(** The calls of [_add_listener] for one method and its [_conf_listen]. *)
Definition method_log (method_name : string)
    (info : list (SectionKey * ConfigurationKey)) : list Registration :=
  '(section, opt) ← info;
  [ {| reg_func := MethodName method_name;
       reg_option := opt; reg_section := section |} ].

(** Those for one name of [dir(self)]. *)
Definition member_log (cls : ObserverClass)
    (member : string * option (list (SectionKey * ConfigurationKey)))
    : list Registration :=
  if gathered cls member.1 then method_log member.1 (default [] member.2)
  else [].

(** The calls of [_add_listener] that [_gather_observers] makes. *)
Definition gather_log (cls : ObserverClass) : list Registration :=
  members cls ≫= member_log cls.

(** A later call [add_configuration_observer(func, option, section)]. *)
Record Addition : Type := {
  add_func : Receiver;
  add_option : ConfigurationKey;
  add_section : SectionKey
}.

Definition add_all (cls : ObserverClass) (adds : list Addition)
    (self : ObserverState) : ObserverState :=
  foldl (λ self a,
           (add_configuration_observer cls (add_func a) (add_option a)
                                       (add_section a) self).1)
        self adds.

(** The calls of [_add_listener] that a series of
    [add_configuration_observer] makes. *)
Definition add_log (cls : ObserverClass) (adds : list Addition)
    : list Registration :=
  (λ a, {| reg_func := add_func a;
           reg_option := add_option a;
           reg_section := match add_section a with
                          | None => CONF_SECTION cls
                          | Some s => Some s
                          end |}) <$> adds.

(** The receivers a log registers for the pair [(section, opt)], in the
    order of the log. *)
Definition registered_for (log : list Registration)
    (section : SectionKey) (opt : ConfigurationKey) : list Receiver :=
  reg_func <$>
    filter (λ r, reg_section r = section ∧ reg_option r = opt) log.

(** The receivers whose registration is for the option [opt] of the
    section named [section], a registration without a section counting for
    [CONF_SECTION]; in the order of the registrations. *)
Definition registered_in_order (cls : ObserverClass) (log : list Registration)
    (section : string) (opt : ConfigurationKey) : list Receiver :=
  reg_func <$>
    filter (λ r, match reg_section r with
                 | None => CONF_SECTION cls
                 | Some s => Some s
                 end = Some section
                 ∧ reg_option r = opt) log.

(** The registry holds no option without a receiver: every list stored
    under a section and an option has at least one entry. *)
Definition listeners_wf (self : ObserverState) : Prop :=
  ∀ section selectors opt receivers,
    _configuration_listeners self !! section = Some selectors →
    selectors !! opt = Some receivers →
    receivers ≠ [].

(** ** [on_configuration_change] *)

Module Notify.
Section WithReceivers.

(** [Value]: the new value of an option. *)
Context {Value : Type}.

(** The arguments a receiver is called with: [method(value)] or
    [method(option, value)]. *)
Inductive CallArgs : Type :=
  | WithValue (value : Value)
  | WithOptionAndValue (opt : ConfigurationKey) (value : Value).

Record Call : Type := {
  callee : Receiver;
  call_args : CallArgs
}.

(** What a call to a receiver does: the listeners it registers on the
    object while it runs, each one a call of [_add_listener] (made directly
    or through [add_configuration_observer]), and the exception it ends
    with, if any. *)
Record Reaction : Type := {
  registers : list Registration;
  raises : option ExcClass
}.

(** What is not the mixin's:
    - [has_attribute name]: whether [getattr(self, name)] finds the method;
    - [callable_in id names]: the value of [receiver in names] for the
      callable [id] and a set of method names.  The interpreter hashes the
      callable and compares it with the names of equal hash: for a function,
      a bound method or a lambda the answer is [False]; for an object that
      cannot be hashed it is a [TypeError];
    - [invoke calls call]: what [call] does when the calls [calls] were
      made before it in the round.
    Receivers change the object through [_add_listener] only. *)
Variable has_attribute : string → bool.
Variable callable_in : nat → gset string → bool + ExcClass.
Variable invoke : list Call → Call → Reaction.

(** [receiver if callable(receiver) else getattr(self, receiver)]: a
    string is not callable and is looked up on the object. *)
Definition resolves (receiver : Receiver) : bool :=
  match receiver with
  | Callable _ => true
  | MethodName name => has_attribute name
  end.

(** [receiver in self._multi_option_listeners]: for a method name, whether
    the set holds it; for a callable, what hashing and comparing it
    gives. *)
Definition in_multi_option_listeners (self : ObserverState)
    (receiver : Receiver) : bool + ExcClass :=
  match receiver with
  | MethodName name => inl (bool_decide (name ∈ _multi_option_listeners self))
  | Callable id => callable_in id (_multi_option_listeners self)
  end.

(** [method(option, value)] or [method(value)] *)
Definition call_with (multi : bool) (opt : ConfigurationKey) (value : Value)
    (receiver : Receiver) : Call :=
  {| callee := receiver;
     call_args := if multi then WithOptionAndValue opt value
                  else WithValue value |}.

(** The call the loop makes for one receiver, or the exception of the
    membership test. *)
Definition call_of (self : ObserverState) (opt : ConfigurationKey)
    (value : Value) (receiver : Receiver) : Call + ExcClass :=
  match in_multi_option_listeners self receiver with
  | inl multi => inl (call_with multi opt value receiver)
  | inr e => inr e
  end.

(** The object after the registrations a receiver made. *)
Definition apply_registrations (registrations : list Registration)
    (self : ObserverState) : ObserverState :=
  foldl (λ self r,
           _add_listener (reg_func r) (reg_option r) (reg_section r) self)
        self registrations.

(** [for receiver in option_receivers: ...], from the position [index] of
    the list on, [calls] being the calls made so far.

    [option_receivers] is the list the registry holds for the pair (or a
    new empty list when it holds none; no receiver runs then and nothing
    is registered).  [_add_listener] appends to that very list, so a
    receiver registered for the pair during the round is met by the loop:
    at every step the list iterated is the one the registry holds for the
    pair at that moment.  A loop that receivers keep feeding does not end;
    [fuel] bounds the number of receivers looked at, and the result says
    how the loop ended, or [None] when it has not ended yet. *)
Fixpoint notify (fuel : nat) (self : ObserverState) (opt : ConfigurationKey)
    (section : SectionKey) (value : Value) (calls : list Call) (index : nat)
    : ObserverState * list Call * option (Outcome unit) :=
  match fuel with
  | O => (self, calls, None)
  | S fuel =>
      match receivers_of self section opt !! index with
      | None => (self, calls, Some (Returned ()))
      | Some receiver =>
          if resolves receiver then
            match in_multi_option_listeners self receiver with
            | inl multi =>
                let call := call_with multi opt value receiver in
                let reaction := invoke calls call in
                let self := apply_registrations (registers reaction) self in
                match raises reaction with
                | None =>
                    notify fuel self opt section value (calls ++ [call])
                           (S index)
                | Some e => (self, calls ++ [call], Some (Propagates e))
                end
            | inr e => (self, calls, Some (Propagates e))
            end
          else (self, calls, Some (Propagates AttributeError))
      end
  end.

(** [on_configuration_change]: the object afterwards, the calls made to
    receivers in order, and how the method ended within [fuel] steps of
    the loop. *)
Definition on_configuration_change (fuel : nat) (self : ObserverState)
    (opt : ConfigurationKey) (section : SectionKey) (value : Value)
    : ObserverState * list Call * option (Outcome unit) :=
  notify fuel self opt section value [] 0.

(** A receiver responds: it is found, the membership test on it succeeds,
    and the call made to it returns, whenever it is made. *)
Definition responds (self : ObserverState) (opt : ConfigurationKey)
    (value : Value) (receiver : Receiver) : Prop :=
  resolves receiver = true
  ∧ ∃ call, call_of self opt value receiver = inl call
            ∧ ∀ calls, raises (invoke calls call) = None.

Definition respond (self : ObserverState) (opt : ConfigurationKey)
    (value : Value) (receivers : list Receiver) : Prop :=
  ∀ receiver, receiver ∈ receivers → responds self opt value receiver.

(** The calls to [receivers] register nothing for the pair
    [(section, opt)]. *)
Definition quiet (self : ObserverState) (opt : ConfigurationKey)
    (section : SectionKey) (value : Value) (receivers : list Receiver)
    : Prop :=
  ∀ receiver call calls,
    receiver ∈ receivers →
    call_of self opt value receiver = inl call →
    registered_for (registers (invoke calls call)) section opt = [].

End WithReceivers.
End Notify.

(** ** A class to run the model on

    An editor-like class with [CONF_SECTION = 'editor'] and, in the order
    of [dir]: [on_change], decorated for the options [font] and [wrap]
    without a section; [on_font], decorated for [font] of the section
    [editor]; [on_theme], decorated for [theme] of the section
    [appearance]; and [refresh], not decorated. *)

Definition editor_class : ObserverClass := {|
  accessor := {| CONF_SECTION := Some "editor" |};
  PYSIDE6 := false;
  members :=
    [ ("on_change", Some [(None, OptionName "font"); (None, OptionName "wrap")]);
      ("on_font", Some [(Some "editor", OptionName "font")]);
      ("on_theme", Some [(Some "appearance", OptionName "theme")]);
      ("refresh", None) ]
|}.

(** The same methods in a class that leaves [CONF_SECTION] at [None]. *)
Definition sectionless_class : ObserverClass := {|
  accessor := {| CONF_SECTION := None |};
  PYSIDE6 := false;
  members := members editor_class
|}.

(** A class with [CONF_SECTION = 'editor'] and two methods, in the order
    of [dir]: [a_font], decorated for [font] of the section [editor], and
    [b_change], decorated for [font] without a section. *)
Definition two_listener_class : ObserverClass := {|
  accessor := {| CONF_SECTION := Some "editor" |};
  PYSIDE6 := false;
  members :=
    [ ("a_font", Some [(Some "editor", OptionName "font")]);
      ("b_change", Some [(None, OptionName "font")]) ]
|}.

(** Receivers that are all there and all return, registering nothing;
    callables that are functions, equal to no method name. *)
Definition all_found : string → bool := λ _, true.
Definition functions : nat → gset string → bool + ExcClass := λ _ _, inl false.
Definition all_return : list (@Notify.Call Z) → @Notify.Call Z → Notify.Reaction :=
  λ _ _, {| Notify.registers := []; Notify.raises := None |}.

(** Callables of which number 7 cannot be hashed. *)
Definition TypeError : ExcClass := Builtin "TypeError".
Definition one_unhashable : nat → gset string → bool + ExcClass :=
  λ id _, if decide (id = 7%nat) then inr TypeError else inl false.

(** Receivers of which [on_font], each time it is called, registers the
    callable 3 for [font] of the section [editor]. *)
Definition on_font_registers
    : list (@Notify.Call Z) → @Notify.Call Z → Notify.Reaction :=
  λ _ call,
    if decide (Notify.callee call = MethodName "on_font") then
      {| Notify.registers :=
           [ {| reg_func := Callable 3; reg_option := OptionName "font";
                reg_section := Some "editor" |} ];
         Notify.raises := None |}
    else {| Notify.registers := []; Notify.raises := None |}.

(** Receivers of which [on_change] raises. *)
Definition on_change_raises
    : list (@Notify.Call Z) → @Notify.Call Z → Notify.Reaction :=
  λ _ call,
    {| Notify.registers := [];
       Notify.raises :=
         if decide (Notify.callee call = MethodName "on_change")
         then Some (Builtin "ValueError") else None |}.

(** A configuration manager that answers every call with [0] and counts
    the calls. *)
Definition counting_CONF : @Accessor.ConfCall Z → nat → nat * (Z + ExcClass) :=
  λ _ n, (S n, inl 0).

(** ** [SpyderCompletionProvider.get_option] and [set_option] *)

Module ProviderOptions.

(** The argument [option_name]: a string, or a tuple of strings. *)
Inductive LocalOption : Type :=
  | LocalName (name : string)
  | LocalPath (path : list string).

(** The option name handed to the plugin: the string as it came, or a
    tuple. *)
Inductive GlobalOption : Type :=
  | GlobalName (name : string)
  | GlobalPath (items : list PyVal).

(** The calls made on [self.main]; the method returns what the call
    returns. *)
Inductive MainCall : Type :=
  | get_global_option (option_name : GlobalOption) (section : string)
      (default : PyVal)
  | set_conf_option (option_name : GlobalOption) (value : PyVal)
      (section : string).

Definition pass_through (option_name : LocalOption) : GlobalOption :=
  match option_name with
  | LocalName name => GlobalName name
  | LocalPath path => GlobalPath (PyStr <$> path)
  end.

Definition get_option (self : SpyderCompletionProvider)
    (option_name : LocalOption) (default : PyVal) (section : option string)
    : MainCall :=
  match section with
  | None =>
      let section := "completions" in
      let option_name :=
        match option_name with
        | LocalPath path =>
            (* isinstance(option_name, tuple) *)
            GlobalPath (PyStr "provider_configuration"
                        :: py_of_name (COMPLETION_CLIENT_NAME self)
                        :: PyStr "values"
                        :: (PyStr <$> path))
        | LocalName name =>
            GlobalPath [ PyStr "provider_configuration";
                         py_of_name (COMPLETION_CLIENT_NAME self);
                         PyStr "values";
                         PyStr name ]
        end in
      get_global_option option_name section default
  | Some section => get_global_option (pass_through option_name) section default
  end.

Definition set_option (self : SpyderCompletionProvider)
    (option_name : LocalOption) (value : PyVal) (section : option string)
    : MainCall :=
  match section with
  | None =>
      let section := "completions" in
      let option_name :=
        match option_name with
        | LocalPath path =>
            GlobalPath (PyStr "provider_configuration"
                        :: py_of_name (COMPLETION_CLIENT_NAME self)
                        :: PyStr "values"
                        :: (PyStr <$> path))
        | LocalName name =>
            GlobalPath [ PyStr "provider_configuration";
                         py_of_name (COMPLETION_CLIENT_NAME self);
                         PyStr "values";
                         PyStr name ]
        end in
      set_conf_option option_name value section
  | Some section => set_conf_option (pass_through option_name) value section
  end.

(** The entry of the configuration a call is about. *)
Definition addressed (c : MainCall) : GlobalOption * string :=
  match c with
  | get_global_option option_name section _ => (option_name, section)
  | set_conf_option option_name _ section => (option_name, section)
  end.


End ProviderOptions.

(** * [install_subrepos.py] *)

(** ** Strings, as [get_python_lsp_version] takes them apart

    A string is a sequence of code points below 256. *)

Module PyString.

(** [str.isspace] for one character: what [str.strip()] and [str.split()]
    take for whitespace. *)
Definition is_space (c : Ascii.ascii) : bool :=
  let n := Ascii.nat_of_ascii c in
  ((9 <=? n) && (n <=? 13) || (28 <=? n) && (n <=? 32)
   || (n =? 133) || (n =? 160))%nat.

(** The characters [\d] matches. *)
Definition is_digit (c : Ascii.ascii) : bool :=
  let n := Ascii.nat_of_ascii c in ((48 <=? n) && (n <=? 57))%nat.

(** ["\n"], which [.] does not match. *)
Definition is_newline (c : Ascii.ascii) : bool := (Ascii.nat_of_ascii c =? 10)%nat.

Definition is_comma (c : Ascii.ascii) : bool := (Ascii.nat_of_ascii c =? 44)%nat.

(** [sub in s] *)
Fixpoint contains (sub s : string) : bool :=
  String.prefix sub s
  || match s with
     | EmptyString => false
     | String _ rest => contains sub rest
     end.

Fixpoint lstrip (s : string) : string :=
  match s with
  | EmptyString => EmptyString
  | String c rest => if is_space c then lstrip rest else s
  end.

Fixpoint rstrip (s : string) : string :=
  match s with
  | EmptyString => EmptyString
  | String c rest =>
      match rstrip rest with
      | EmptyString => if is_space c then EmptyString else String c EmptyString
      | kept => String c kept
      end
  end.

(** [s.strip()] *)
Definition strip (s : string) : string := rstrip (lstrip s).

(** The word being read, closed: nothing when no character was read. *)
Definition flush (word : string) : list string :=
  match word with
  | EmptyString => []
  | _ => [word]
  end.

(** [s.split()], reading [s] with the characters of the current word in
    [word]: runs of whitespace separate the words and give no empty
    word. *)
Fixpoint split_from (word s : string) : list string :=
  match s with
  | EmptyString => flush word
  | String c rest =>
      if is_space c then flush word ++ split_from EmptyString rest
      else split_from (word +:+ String c EmptyString) rest
  end.

Definition split (s : string) : list string := split_from EmptyString s.

(** [s.split(',')[0]]: what stands before the first comma. *)
Fixpoint before_comma (s : string) : string :=
  match s with
  | EmptyString => EmptyString
  | String c rest => if is_comma c then EmptyString else String c (before_comma rest)
  end.

(** What [.*] matches at the start of [s]: all up to a newline. *)
Fixpoint until_newline (s : string) : string :=
  match s with
  | EmptyString => EmptyString
  | String c rest =>
      if is_newline c then EmptyString else String c (until_newline rest)
  end.

(** [re.search(r'\d+.*', s)]: the match starts at the first digit, and
    takes the digits and everything behind them up to a newline; [None]
    without a digit. *)
Fixpoint search_version (s : string) : option string :=
  match s with
  | EmptyString => None
  | String c rest =>
      if is_digit c then Some (until_newline s) else search_version rest
  end.

(** Every character of [s] satisfies [p]. *)
Fixpoint all_chars (p : Ascii.ascii → bool) (s : string) : bool :=
  match s with
  | EmptyString => true
  | String c rest => p c && all_chars p rest
  end.

End PyString.

Module InstallSubrepos.

(** Exceptions of the interpreter met in the script. *)
Definition IndexError : ExcClass := Builtin "IndexError".
Definition UnboundLocalError : ExcClass := Builtin "UnboundLocalError".

(** [get_python_lsp_version], on the lines of [requirements/conda.txt] as
    the file object yields them.  The exceptions are those of the
    interpreter: [version] not bound at [return] when no line names the
    package, the index [1] out of range, [group] asked of [None]. *)
Fixpoint get_python_lsp_version (lines : list string) : Outcome string :=
  match lines with
  | [] => Propagates UnboundLocalError
  | line :: rest =>
      if negb (PyString.contains "python-lsp-server" line) then
        get_python_lsp_version rest
      else
        (* Get version part of dependency line *)
        match PyString.split (PyString.strip line) !! 1%nat with
        | None => Propagates IndexError
        | Some version =>
            (* Get lower bound *)
            let version := PyString.before_comma version in
            (* Remove comparison signs and only leave version number *)
            match PyString.search_version version with
            | None => Propagates AttributeError
            | Some version => Returned version
            end
        end
  end.

Section WithSystem.

(** [Path]: [pathlib.Path] objects, compared with [==]; [name] and
    [as_posix] are its attribute and method.  [get_distribution name] is
    [Path(pkg_resources.get_distribution(name).location)], or [None] when
    [DistributionNotFound] is raised (any other exception ends the import
    of the module, and then there is no [REPOS]). *)
Context {Path : Type} `{EqDecision Path}.
Variable name : Path → string.
Variable as_posix : Path → string.
Variable get_distribution : string → option Path.

(** [sys.executable], [os.environ], the lines of [requirements/conda.txt]
    or the exception of [open], and [str.format] with one argument. *)
Variable sys_executable : string.
Variable os_environ : gmap string string.
Variable conda_txt : list string + ExcClass.
Variable str_format : string → string → string + ExcClass.

(** The value of an entry of [REPOS], a dictionary with the keys ['repo'],
    ['dist'] and ['editable']. *)
Record RepoInfo : Type := {
  repo : Path;
  dist : option Path;
  editable : bool
}.

(** The module-level loop over [DEPS_PATH.iterdir()]. *)
Definition add_repo (REPOS : gmap string RepoInfo) (p : Path)
    : gmap string RepoInfo :=
  if String.prefix "." (name p) then REPOS
  else
    let dist := get_distribution (name p) in
    <[name p := {| repo := p; dist := dist;
                   editable := bool_decide (Some p = dist) |}]> REPOS.

Definition build_REPOS (iterdir : list Path) : gmap string RepoInfo :=
  foldl add_repo ∅ iterdir.

Definition BASE_COMMAND : list string :=
  [sys_executable; "-m"; "pip"; "install"; "--no-deps"].

(** The objects [install_repo] asks for [as_posix]: the dictionary it
    takes out of [REPOS], or a path.  A dictionary has no such attribute. *)
Inductive PyObject : Type :=
  | DictObject (d : RepoInfo)
  | PathObject (p : Path).

Definition call_as_posix (o : PyObject) : string + ExcClass :=
  match o with
  | PathObject p => inl (as_posix p)
  | DictObject _ => inr AttributeError
  end.

(** What [install_repo] does to the outside. *)
Inductive InstallEvent : Type :=
  | LogWarning (repo : string) (valid : list string)
      (* f"Distribution '{repo}' not valid. Must be one of {REPOS.keys()}" *)
  | LogInfo (msg : string)
  | CheckOutput (install_cmd : list string)
      (env : option (gmap string string)).

(** The environment for the subprocess: [None], or for [python-lsp-server]
    a copy of [os.environ] with the pretended version. *)
Definition install_env (repo : string)
    : Outcome (option (gmap string string)) :=
  if decide (repo = "python-lsp-server") then
    match conda_txt with
    | inl lines =>
        match get_python_lsp_version lines with
        | Returned version =>
            Returned (Some (<["SETUPTOOLS_SCM_PRETEND_VERSION" := version]>
                              os_environ))
        | Raises e => Propagates e
        | Propagates e => Propagates e
        end
    | inr e => Propagates e
    end
  else Returned None.

Definition install_repo (REPOS : gmap string RepoInfo)
    (repo : string) (editable : bool) : list InstallEvent * Outcome unit :=
  match REPOS !! repo with
  | None =>
      (* except KeyError *)
      ([LogWarning repo (map_to_list REPOS).*1], Returned ())
  | Some repo_path =>
      let install_cmd := BASE_COMMAND in
      match install_env repo with
      | Returned env =>
          let msg := "Installing '" +:+ repo +:+ "' from source in {} mode." in
          let install_cmd :=
            if editable then install_cmd ++ ["-e"] else install_cmd in
          match str_format msg (if editable then "editable" else "standard") with
          | inl msg =>
              match call_as_posix (DictObject repo_path) with
              | inl posix =>
                  ([LogInfo msg; CheckOutput (install_cmd ++ [posix]) env],
                   Returned ())
              | inr e => ([LogInfo msg], Propagates e)
              end
          | inr e => ([], Propagates e)
          end
      | Raises e => ([], Propagates e)
      | Propagates e => ([], Propagates e)
      end
  end.

(** [main]: [install_repo] for every name, until one raises. *)
Fixpoint main (REPOS : gmap string RepoInfo) (install : list string)
    (editable : bool) : list InstallEvent * Outcome unit :=
  match install with
  | [] => ([], Returned ())
  | repo :: rest =>
      match install_repo REPOS repo editable with
      | (events, Returned _) =>
          let '(more, out) := main REPOS rest editable in
          (events ++ more, out)
      | (events, out) => (events, out)
      end
  end.

Definition is_check_output (e : InstallEvent) : bool :=
  match e with
  | CheckOutput _ _ => true
  | _ => false
  end.

End WithSystem.
End InstallSubrepos.

(** * Properties of the completion API constants *)

Lemma filter_no_int (l : list (string * PyVal)) :
  Forall (λ e, isinstance_int e.2 = false) l →
  filter (λ value, isinstance_int value = true) l.*2 = [].
Proof.
  induction 1 as [|[name v] l Hv _ IH]; [done|].
  rewrite fmap_cons, filter_cons_False; [exact IH|].
  simpl in *. congruence.
Qed.

Lemma SymbolKind_constants :
  SymbolKind.constants = seqZ 1 26 ++ [224; 225].
Proof. reflexivity. Qed.

Lemma valueSet_eq (py : ClassDunders) :
  dunders_no_int py →
  filter (λ value, isinstance_int value = true) (SymbolKind__dict__ py).*2
  = PyInt <$> SymbolKind.constants.
Proof.
  intros [Hbefore Hafter]%Forall_app.
  unfold SymbolKind__dict__.
  rewrite !fmap_app, !filter_app.
  rewrite (filter_no_int _ Hbefore), (filter_no_int _ Hafter).
  rewrite app_nil_r. reflexivity.
Qed.

(** C9.  Every integer constant declared in [SymbolKind], the non-standard
    [BLOCK_COMMENT] (224) and [CELL] (225) among them, is a key of
    [SYMBOL_KIND_ICON], and the icon name it is mapped to is not the empty
    string. *)
Theorem SYMBOL_KIND_ICON_total :
  Forall (λ kind, ∃ icon, SYMBOL_KIND_ICON !! kind = Some icon ∧ icon ≠ "")
         SymbolKind.constants
  ∧ length SymbolKind.constants = length SymbolKind.declared
  ∧ SYMBOL_KIND_ICON !! SymbolKind.BLOCK_COMMENT = Some "blockcomment"
  ∧ SYMBOL_KIND_ICON !! SymbolKind.CELL = Some "cell".
Proof.
  split; [|by vm_compute].
  rewrite SymbolKind_constants.
  repeat (apply Forall_cons; split;
          [eexists; split; [by vm_compute | discriminate] |]).
  apply Forall_nil_2.
Qed.

(** C2 (the code departs from it).  Compared with the protocol, the method
    strings of [CompletionRequestTypes] agree but one:
    [DOCUMENT_REFERENCES] is [" textDocument/references"], with a space in
    front, where the protocol has ["textDocument/references"].  The numbers
    of [SymbolKind] (1 to 26) and of [CompletionItemKind] are those of the
    protocol. *)
Theorem DOCUMENT_REFERENCES_differs_from_LSP :
  CompletionRequestTypes.DOCUMENT_REFERENCES ≠ "textDocument/references"
  ∧ CompletionRequestTypes.DOCUMENT_REFERENCES = " textDocument/references"
  ∧ assoc_get "DOCUMENT_REFERENCES" LSP.methods = Some "textDocument/references"
  ∧ mismatches CompletionRequestTypes.standard LSP.methods
    = [("DOCUMENT_REFERENCES", CompletionRequestTypes.DOCUMENT_REFERENCES)]
  ∧ CompletionRequestTypes.standard.*1 = LSP.methods.*1
  ∧ take 26 (int_entries SymbolKind.declared) = LSP.symbol_kinds
  ∧ CompletionItemKind.declared = LSP.completion_item_kinds.
Proof.
  split; [discriminate|].
  repeat split; by vm_compute.
Qed.

(** C4 (the code departs from it).  [CLIENT_CAPABILITES] has exactly the
    keys ['workspace'], mapped to [WORKSPACE_CAPABILITIES], and
    ['textDocument'], mapped to [TEXT_EDITOR_CAPABILITES].  The [valueSet]
    under [executeCommand], [symbolKind] is every integer found among the
    values of [SymbolKind.__dict__], those the interpreter stores there
    included: with an interpreter that records the line of the [class]
    statement in the namespace it is 33 followed by the constants declared
    in [SymbolKind], and 33 is none of them.  It is the list of the declared
    constants, 1 to 26, 224 and 225, when the interpreter stores no integer
    of its own, as with the entries of CPython up to 3.12. *)
Theorem valueSet_takes_interpreter_integers :
  (∀ py,
     dict_keys (CLIENT_CAPABILITES py) = ["workspace"; "textDocument"]
     ∧ dict_get "workspace" (CLIENT_CAPABILITES py)
       = Some (WORKSPACE_CAPABILITIES py)
     ∧ dict_get "textDocument" (CLIENT_CAPABILITES py)
       = Some TEXT_EDITOR_CAPABILITES
     ∧ dict_path ["executeCommand"; "symbolKind"; "valueSet"]
                 (WORKSPACE_CAPABILITIES py)
       = Some (PyList (filter (λ value, isinstance_int value = true)
                              (SymbolKind__dict__ py).*2)))
  ∧ dict_path ["workspace"; "executeCommand"; "symbolKind"; "valueSet"]
              (CLIENT_CAPABILITES lineno_dunders)
    = Some (PyList (PyInt <$> 33 :: SymbolKind.constants))
  ∧ (33 ∉ SymbolKind.constants)
  ∧ (∀ py,
       dunders_no_int py →
       dict_path ["workspace"; "executeCommand"; "symbolKind"; "valueSet"]
                 (CLIENT_CAPABILITES py)
       = Some (PyList (PyInt <$> SymbolKind.constants)))
  ∧ dunders_no_int cpython_dunders
  ∧ SymbolKind.constants = seqZ 1 26 ++ [224; 225].
Proof.
  split; [intros py; repeat split|].
  split; [reflexivity|].
  split.
  { intros H%list_elem_of_In. vm_compute in H. intuition discriminate. }
  split.
  { intros py Hpy. simpl. by rewrite (valueSet_eq py Hpy). }
  split; [repeat constructor | reflexivity].
Qed.

Lemma run_lifecycle_default
    (self : SpyderCompletionProvider) (calls : list LifecycleCall) :
  run_lifecycle self calls
  = (self,
     calls ≫= λ c,
       match c with
       | CallStart =>
           [Emit sig_provider_ready
              [match COMPLETION_CLIENT_NAME self with
               | Some name => PyStr name
               | None => PyNone
               end]]
       | _ => []
       end).
Proof.
  induction calls as [|c calls IH]; [done|].
  destruct c; simpl; rewrite IH; simpl;
    by destruct (COMPLETION_CLIENT_NAME self).
Qed.

(** C6.  [SpyderCompletionProvider] defines [start], [shutdown] and
    [update_configuration].  Over any series of calls of the three on a
    provider, the signals emitted are one [sig_provider_ready] for each
    [start], and nothing for a [shutdown] or an [update_configuration];
    the only argument of the signal is the provider's
    [COMPLETION_CLIENT_NAME]: the string itself for a provider that has a
    name, [None] for one that has not, so that two providers whose [start]
    emits the same have the same name; and the provider is as before.
    [start_provider] returns [False] for every language and [can_close]
    returns [True]. *)
Theorem provider_lifecycle_hooks
    (self : SpyderCompletionProvider) (calls : list LifecycleCall)
    (language : string) :
  (run_lifecycle self calls).1 = self
  ∧ (run_lifecycle self calls).2
    = (calls ≫= λ c,
         match c with
         | CallStart =>
             [Emit sig_provider_ready
                [match COMPLETION_CLIENT_NAME self with
                 | Some name => PyStr name
                 | None => PyNone
                 end]]
         | _ => []
         end)
  ∧ (∀ name,
       COMPLETION_CLIENT_NAME self = Some name →
       start self = (self, [Emit sig_provider_ready [PyStr name]]))
  ∧ (COMPLETION_CLIENT_NAME self = None →
     start self = (self, [Emit sig_provider_ready [PyNone]]))
  ∧ (∀ other : SpyderCompletionProvider,
       (start other).2 = (start self).2 →
       COMPLETION_CLIENT_NAME other = COMPLETION_CLIENT_NAME self)
  ∧ shutdown self = (self, [])
  ∧ (∀ new_config, update_configuration self new_config = (self, []))
  ∧ start_provider self language = false
  ∧ can_close self = true.
Proof.
  rewrite run_lifecycle_default.
  split; [done|]. split; [done|].
  split; [by intros name Hname; simpl; rewrite Hname|].
  split; [by intros Hname; simpl; rewrite Hname|].
  split; [|done].
  intros other. simpl.
  destruct (COMPLETION_CLIENT_NAME other), (COMPLETION_CLIENT_NAME self);
    simpl; congruence.
Qed.

(** * Properties of [SpyderConfigurationAccessor] *)

Section AccessorProperties.
Context {Value Reply ConfState : Type}.
Variable CONF :
  @Accessor.ConfCall Value → ConfState → ConfState * (Reply + ExcClass).

Lemma call_CONF_not_raises (c : Accessor.ConfCall) (conf : ConfState) e :
  Accessor.outcome (Accessor.call_CONF CONF c conf) ≠ Raises e.
Proof.
  unfold Accessor.call_CONF. destruct (CONF c conf) as [conf' [reply|e']];
    simpl; discriminate.
Qed.

Lemma discard_reply_not_raises (r : @Accessor.Run Value Reply ConfState) e :
  Accessor.outcome r ≠ Raises e →
  Accessor.outcome (Accessor.discard_reply r) ≠ Raises e.
Proof.
  unfold Accessor.discard_reply. simpl.
  destruct (Accessor.outcome r); [discriminate|done|discriminate].
Qed.

(** With a section to use, an accessor makes exactly one call on [CONF]
    and raises nothing of its own. *)
Lemma run_with_section (self : SpyderConfigurationAccessor)
    (c : Accessor.AccessorCall) (conf : ConfState) (section : string) :
  Accessor.effective_section self (Accessor.section_argument c) = Some section →
  (∀ e, Accessor.outcome (Accessor.run CONF self c conf) ≠ Raises e)
  ∧ length (Accessor.conf_calls (Accessor.run CONF self c conf)) = 1%nat.
Proof.
  intros Hs.
  destruct c; simpl in Hs |- *;
    unfold Accessor.get_conf, Accessor.get_conf_options, Accessor.set_conf,
      Accessor.remove_conf, Accessor.get_conf_default;
    rewrite Hs; (split; [intros e|]);
    try apply discard_reply_not_raises; try apply call_CONF_not_raises;
    unfold Accessor.discard_reply, Accessor.call_CONF;
    destruct (CONF _ conf) as [conf' r]; reflexivity.
Qed.

(** Without one, it raises [AttributeError] and [CONF] is left alone. *)
Lemma run_without_section (self : SpyderConfigurationAccessor)
    (c : Accessor.AccessorCall) (conf : ConfState) :
  Accessor.effective_section self (Accessor.section_argument c) = None →
  Accessor.run CONF self c conf = Accessor.raise_no_section conf.
Proof.
  intros Hs.
  destruct c; simpl in Hs |- *;
    unfold Accessor.get_conf, Accessor.get_conf_options, Accessor.set_conf,
      Accessor.remove_conf, Accessor.get_conf_default;
    by rewrite Hs.
Qed.

Lemma effective_section_None (self : SpyderConfigurationAccessor)
    (section : SectionKey) :
  Accessor.effective_section self section = None
  ↔ section = None ∧ CONF_SECTION self = None.
Proof.
  unfold Accessor.effective_section.
  destruct section; [split; [discriminate | intros [[=] _]] | tauto].
Qed.

(** C5.  For each of [get_conf], [get_conf_options], [set_conf],
    [remove_conf] and [get_conf_default]: the operation raises
    [AttributeError] itself exactly when its [section] argument and the
    [CONF_SECTION] of the class are both [None]; it then has made no call
    on the configuration manager, whose state is as before; and whatever
    the operation raises itself is a built-in exception. *)
Theorem accessor_raises_AttributeError_iff_no_section
    (self : SpyderConfigurationAccessor) (c : Accessor.AccessorCall)
    (conf : ConfState) :
  let r := Accessor.run CONF self c conf in
  (Accessor.outcome r = Raises AttributeError
   ↔ Accessor.section_argument c = None ∧ CONF_SECTION self = None)
  ∧ (Accessor.outcome r = Raises AttributeError →
     Accessor.conf_calls r = [] ∧ Accessor.conf_after r = conf)
  ∧ (∀ e, Accessor.outcome r = Raises e →
     e = AttributeError ∧ is_builtin e = true).
Proof.
  simpl. rewrite <- effective_section_None.
  destruct (Accessor.effective_section self (Accessor.section_argument c))
    as [section|] eqn:Hs.
  - destruct (run_with_section self c conf section Hs) as [Hno _].
    split; [|split].
    + split; [intros H; destruct (Hno _ H) | discriminate].
    + intros H. destruct (Hno _ H).
    + intros e H. destruct (Hno _ H).
  - rewrite (run_without_section self c conf Hs). simpl.
    split; [done|]. split; [done|].
    intros e [= <-]. done.
Qed.

End AccessorProperties.

(** An accessor without any section raises before [CONF] is called; with
    the section of its class it makes the one call. *)
Example get_conf_without_section :
  Accessor.get_conf counting_CONF {| CONF_SECTION := None |}
    (OptionName "font") None None false 0%nat
  = {| Accessor.conf_after := 0%nat;
       Accessor.conf_calls := [];
       Accessor.outcome := Raises AttributeError |}.
Proof. reflexivity. Qed.

Example get_conf_with_class_section :
  Accessor.get_conf counting_CONF {| CONF_SECTION := Some "editor" |}
    (OptionName "font") None None false 0%nat
  = {| Accessor.conf_after := 1%nat;
       Accessor.conf_calls := [Accessor.CONF_get "editor" (OptionName "font") None false];
       Accessor.outcome := Returned (Some 0) |}.
Proof. reflexivity. Qed.

(** * Properties of the listener registry *)

Lemma receivers_of_add_listener func opt section self section' opt' :
  receivers_of (_add_listener func opt section self) section' opt'
  = receivers_of self section' opt'
    ++ (if decide (section = section' ∧ opt = opt') then [func] else []).
Proof.
  unfold receivers_of, _add_listener. simpl.
  destruct (decide (section = section')) as [<-|Hs].
  - rewrite lookup_insert_eq. simpl.
    destruct (decide (opt = opt')) as [<-|Ho].
    + rewrite lookup_insert_eq, decide_True by done. done.
    + rewrite lookup_insert_ne, decide_False by tauto.
      by rewrite app_nil_r.
  - rewrite lookup_insert_ne, decide_False by tauto.
    by rewrite app_nil_r.
Qed.

Lemma multi_add_listener func opt section self :
  _multi_option_listeners (_add_listener func opt section self)
  = _multi_option_listeners self.
Proof. reflexivity. Qed.

Lemma registered_for_app log1 log2 section opt :
  registered_for (log1 ++ log2) section opt
  = registered_for log1 section opt ++ registered_for log2 section opt.
Proof. unfold registered_for. by rewrite filter_app, fmap_app. Qed.

Lemma registered_for_cons r log section opt :
  registered_for (r :: log) section opt
  = (if decide (reg_section r = section ∧ reg_option r = opt)
     then [reg_func r] else [])
    ++ registered_for log section opt.
Proof.
  unfold registered_for. rewrite filter_cons.
  by destruct (decide (reg_section r = section ∧ reg_option r = opt)).
Qed.

Lemma receivers_of_register_info method_name info self section opt :
  receivers_of
    (foldl (λ self '(section, opt),
              _add_listener (MethodName method_name) opt section self)
           self info) section opt
  = receivers_of self section opt
    ++ registered_for (method_log method_name info) section opt.
Proof.
  revert self. induction info as [|[s o] info IH]; intros self; simpl.
  - by rewrite app_nil_r.
  - rewrite IH, receivers_of_add_listener.
    unfold method_log. simpl. rewrite registered_for_cons. simpl.
    by rewrite <- app_assoc.
Qed.

Lemma multi_register_info method_name info self :
  _multi_option_listeners
    (foldl (λ self '(section, opt),
              _add_listener (MethodName method_name) opt section self)
           self info)
  = _multi_option_listeners self.
Proof.
  revert self. induction info as [|[s o] info IH]; intros self; simpl; [done|].
  by rewrite IH.
Qed.

Lemma receivers_of_gather_member cls self member section opt :
  receivers_of (gather_member cls self member) section opt
  = receivers_of self section opt
    ++ registered_for (member_log cls member) section opt.
Proof.
  destruct member as [method_name conf_listen].
  unfold gather_member, member_log, gathered. simpl.
  destruct (PYSIDE6 cls && bool_decide (method_name ∈ pyside6_skipped)); simpl.
  { by rewrite app_nil_r. }
  destruct conf_listen as [info|]; simpl.
  - rewrite receivers_of_register_info. by destruct (bool_decide _).
  - by rewrite app_nil_r.
Qed.

Lemma receivers_of_gather_from cls ms self section opt :
  receivers_of (foldl (gather_member cls) self ms) section opt
  = receivers_of self section opt
    ++ registered_for (ms ≫= member_log cls) section opt.
Proof.
  revert self. induction ms as [|member ms IH]; intros self; simpl.
  - by rewrite app_nil_r.
  - rewrite IH, receivers_of_gather_member, registered_for_app.
    by rewrite <- app_assoc.
Qed.

Lemma receivers_of_empty section opt :
  receivers_of {| _configuration_listeners := ∅;
                  _multi_option_listeners := ∅ |} section opt = [].
Proof. unfold receivers_of. simpl. by rewrite lookup_empty. Qed.

(** After [_gather_observers], the receivers of a pair are those the
    decorated methods were registered with, in the order of [dir]. *)
Lemma receivers_of_gather cls section opt :
  receivers_of
    (_gather_observers cls {| _configuration_listeners := ∅;
                              _multi_option_listeners := ∅ |}) section opt
  = registered_for (gather_log cls) section opt.
Proof.
  unfold _gather_observers.
  by rewrite receivers_of_gather_from, receivers_of_empty.
Qed.

(** [_merge_none_observers], option by option. *)
Lemma lookup_merge_selectors
    (default_selectors section_selectors : gmap ConfigurationKey (list Receiver))
    (opt : ConfigurationKey) :
  merge_selectors default_selectors section_selectors !! opt
  = match default_selectors !! opt with
    | Some default_option_receivers =>
        Some (default_option_receivers
              ++ default [] (section_selectors !! opt))
    | None => section_selectors !! opt
    end.
Proof.
  unfold merge_selectors. revert opt.
  apply (map_fold_weak_ind
    (λ merged visited, ∀ opt,
       merged !! opt
       = match visited !! opt with
         | Some receivers =>
             Some (receivers ++ default [] (section_selectors !! opt))
         | None => section_selectors !! opt
         end)).
  - intros opt. by rewrite lookup_empty.
  - intros o receivers visited merged Hfresh IH opt. simpl.
    destruct (decide (o = opt)) as [<-|Hne].
    + rewrite !lookup_insert_eq. specialize (IH o).
      rewrite Hfresh in IH. by rewrite IH.
    + rewrite !lookup_insert_ne by done. apply IH.
Qed.

Lemma receivers_of_merge cls self section opt :
  receivers_of (_merge_none_observers cls self) section opt
  = match section with
    | None => []
    | Some s =>
        if decide (CONF_SECTION cls = Some s)
        then receivers_of self None opt ++ receivers_of self (Some s) opt
        else receivers_of self (Some s) opt
    end.
Proof.
  unfold receivers_of, _merge_none_observers. simpl.
  destruct section as [s|].
  - rewrite lookup_delete_ne by done.
    destruct (decide (CONF_SECTION cls = Some s)) as [->|Hne].
    + rewrite lookup_insert_eq. simpl. rewrite lookup_merge_selectors.
      by destruct (default ∅ (_configuration_listeners self !! None) !! opt).
    + by rewrite lookup_insert_ne.
  - by rewrite lookup_delete_eq.
Qed.

Lemma no_None_after_merge cls self :
  _configuration_listeners (_merge_none_observers cls self) !! None = None.
Proof. unfold _merge_none_observers. simpl. apply lookup_delete_eq. Qed.

(** The receivers of a pair once [__init__] is through. *)
Lemma receivers_of_init cls (s : string) opt :
  receivers_of (object (__init__ cls)) (Some s) opt
  = (if decide (CONF_SECTION cls = Some s)
     then registered_for (gather_log cls) None opt else [])
    ++ registered_for (gather_log cls) (Some s) opt.
Proof.
  unfold __init__. simpl. rewrite receivers_of_merge.
  rewrite !receivers_of_gather. by destruct (decide _).
Qed.

Lemma receivers_of_add_all cls adds self section opt :
  receivers_of (add_all cls adds self) section opt
  = receivers_of self section opt
    ++ registered_for (add_log cls adds) section opt.
Proof.
  unfold add_all, add_log.
  revert self. induction adds as [|a adds IH]; intros self; simpl.
  - by rewrite app_nil_r.
  - rewrite IH. unfold add_configuration_observer. simpl.
    rewrite receivers_of_add_listener, ?fmap_cons, registered_for_cons.
    by rewrite <- app_assoc.
Qed.

Lemma multi_add_all cls adds self :
  _multi_option_listeners (add_all cls adds self)
  = _multi_option_listeners self.
Proof.
  unfold add_all. revert self.
  induction adds as [|a adds IH]; intros self; simpl; [done|].
  by rewrite IH.
Qed.

(** The receivers of a pair after [__init__] and any later
    [add_configuration_observer]. *)
Lemma receivers_of_object cls adds (s : string) opt :
  receivers_of (add_all cls adds (object (__init__ cls))) (Some s) opt
  = (if decide (CONF_SECTION cls = Some s)
     then registered_for (gather_log cls) None opt else [])
    ++ registered_for (gather_log cls ++ add_log cls adds) (Some s) opt.
Proof.
  rewrite receivers_of_add_all, receivers_of_init, registered_for_app.
  by rewrite <- app_assoc.
Qed.

(** * The registry keeps its shape *)

Lemma wf_selectors self section opt receivers :
  listeners_wf self →
  default ∅ (_configuration_listeners self !! section) !! opt = Some receivers →
  receivers ≠ [].
Proof.
  intros Hwf Hlook.
  destruct (_configuration_listeners self !! section) as [selectors|] eqn:Hs;
    simpl in Hlook.
  - exact (Hwf _ _ _ _ Hs Hlook).
  - by rewrite lookup_empty in Hlook.
Qed.

Lemma wf_empty :
  listeners_wf {| _configuration_listeners := ∅; _multi_option_listeners := ∅ |}.
Proof.
  intros section selectors opt receivers H. simpl in H.
  by rewrite lookup_empty in H.
Qed.

Lemma wf_add_listener func opt section self :
  listeners_wf self → listeners_wf (_add_listener func opt section self).
Proof.
  intros Hwf section' selectors opt' receivers Hs Ho.
  unfold _add_listener in Hs. simpl in Hs.
  destruct (decide (section = section')) as [<-|Hne].
  - rewrite lookup_insert_eq in Hs. injection Hs as <-.
    destruct (decide (opt = opt')) as [<-|Hne].
    + rewrite lookup_insert_eq in Ho. injection Ho as <-.
      intros Hnil. by apply app_eq_nil in Hnil as [_ ?].
    + rewrite lookup_insert_ne in Ho by done.
      exact (wf_selectors _ _ _ _ Hwf Ho).
  - rewrite lookup_insert_ne in Hs by done. exact (Hwf _ _ _ _ Hs Ho).
Qed.

Lemma wf_merge cls self :
  listeners_wf self → listeners_wf (_merge_none_observers cls self).
Proof.
  intros Hwf section selectors opt receivers Hs Ho.
  unfold _merge_none_observers in Hs. simpl in Hs.
  destruct section as [s|]; [|by rewrite lookup_delete_eq in Hs].
  rewrite lookup_delete_ne in Hs by done.
  destruct (decide (CONF_SECTION cls = Some s)) as [Heq|Hne].
  - rewrite Heq, lookup_insert_eq in Hs. injection Hs as <-.
    rewrite lookup_merge_selectors in Ho.
    destruct (default ∅ (_configuration_listeners self !! None) !! opt)
      as [declared|] eqn:Hd.
    + injection Ho as <-. intros Hnil. apply app_eq_nil in Hnil as [-> _].
      by apply (wf_selectors _ _ _ _ Hwf Hd).
    + exact (wf_selectors _ _ _ _ Hwf Ho).
  - rewrite lookup_insert_ne in Hs by done. exact (Hwf _ _ _ _ Hs Ho).
Qed.

Lemma wf_add_configuration_observer cls func opt section self :
  listeners_wf self →
  listeners_wf (add_configuration_observer cls func opt section self).1.
Proof. apply wf_add_listener. Qed.

Lemma wf_gather_member cls self member :
  listeners_wf self → listeners_wf (gather_member cls self member).
Proof.
  destruct member as [method_name [info|]]; unfold gather_member;
    destruct (PYSIDE6 cls && bool_decide (method_name ∈ pyside6_skipped));
    try done.
  intros Hwf.
  assert (Hstart : listeners_wf
    (if bool_decide (1 < length info)%nat
     then {| _configuration_listeners := _configuration_listeners self;
             _multi_option_listeners :=
               _multi_option_listeners self ∪ {[method_name]} |}
     else self)) by (by destruct (bool_decide _)).
  revert Hstart. generalize (if bool_decide (1 < length info)%nat
     then {| _configuration_listeners := _configuration_listeners self;
             _multi_option_listeners :=
               _multi_option_listeners self ∪ {[method_name]} |}
     else self).
  induction info as [|[s o] info IH]; intros st Hst; simpl; [done|].
  apply IH. by apply wf_add_listener.
Qed.

Lemma wf_gather cls self :
  listeners_wf self → listeners_wf (_gather_observers cls self).
Proof.
  unfold _gather_observers. revert self.
  induction (members cls) as [|member ms IH]; intros self Hwf; simpl; [done|].
  apply IH. by apply wf_gather_member.
Qed.

(** C3.  The registry after [__init__], and after every [_add_listener],
    [_merge_none_observers] and [add_configuration_observer], maps sections
    to maps from option keys to lists of receivers (this is the type of
    [_configuration_listeners]; every operation is a total function into
    it), and no list in it is empty.  After [__init__], [None] is not a
    key: the receivers declared without a section are found under
    [CONF_SECTION], in front of those declared for it by name. *)
Theorem listener_registry_invariant (cls : ObserverClass) :
  let self := object (__init__ cls) in
  listeners_wf self
  ∧ (∀ func opt section st,
       listeners_wf st → listeners_wf (_add_listener func opt section st))
  ∧ (∀ st, listeners_wf st → listeners_wf (_merge_none_observers cls st))
  ∧ (∀ func opt section st,
       listeners_wf st →
       listeners_wf (add_configuration_observer cls func opt section st).1)
  ∧ (_configuration_listeners self !! None = None)
  ∧ (None ∉ dom (_configuration_listeners self))
  ∧ (∀ (s : string) opt,
       CONF_SECTION cls = Some s →
       receivers_of self (Some s) opt
       = (registered_for (gather_log cls) None opt
          ++ registered_for (gather_log cls) (Some s) opt)).
Proof.
  intros self.
  assert (Hself : self = _merge_none_observers cls
            (_gather_observers cls {| _configuration_listeners := ∅;
                                      _multi_option_listeners := ∅ |}))
    by reflexivity.
  split; [|split; [|split; [|split; [|split; [|split]]]]].
  - rewrite Hself. apply wf_merge, wf_gather, wf_empty.
  - intros. by apply wf_add_listener.
  - intros. by apply wf_merge.
  - intros. by apply wf_add_configuration_observer.
  - rewrite Hself. apply no_None_after_merge.
  - rewrite elem_of_dom, Hself, no_None_after_merge. by intros [? ?].
  - intros s opt Hs. subst self.
    rewrite receivers_of_init. by rewrite decide_True.
Qed.

(** * Multi-option listeners *)

Lemma multi_gather_member cls self member (name : string) :
  name ∈ _multi_option_listeners (gather_member cls self member)
  ↔ name ∈ _multi_option_listeners self
    ∨ (member.1 = name ∧ gathered cls name = true
       ∧ ∃ info, member.2 = Some info ∧ (1 < length info)%nat).
Proof.
  destruct member as [method_name conf_listen].
  unfold gather_member, gathered. simpl.
  destruct (PYSIDE6 cls && bool_decide (method_name ∈ pyside6_skipped)) eqn:Hskip.
  { split; [by left|]. intros [?|(<- & Hg & _)]; [done|].
    rewrite Hskip in Hg. discriminate. }
  destruct conf_listen as [info|].
  - rewrite multi_register_info.
    destruct (bool_decide (1 < length info)%nat) eqn:Hlen; simpl.
    + apply bool_decide_eq_true in Hlen.
      rewrite elem_of_union, elem_of_singleton.
      split.
      * intros [? | ->]; [by left|]. right.
        rewrite Hskip. repeat split; eauto.
      * intros [?|(<- & _)]; [by left|by right].
    + apply bool_decide_eq_false in Hlen.
      split; [by left|].
      intros [?|(_ & _ & info' & [= <-] & ?)]; done.
  - split; [by left|]. intros [?|(_ & _ & info & ? & _)]; done.
Qed.

Lemma multi_gather_from cls ms self (name : string) :
  name ∈ _multi_option_listeners (foldl (gather_member cls) self ms)
  ↔ name ∈ _multi_option_listeners self
    ∨ (gathered cls name = true
       ∧ ∃ info, (name, Some info) ∈ ms ∧ (1 < length info)%nat).
Proof.
  revert self. induction ms as [|member ms IH]; intros self; simpl.
  - split; [by left|]. intros [?|(_ & info & Hin & _)]; [done|].
    by apply elem_of_nil in Hin.
  - rewrite IH, multi_gather_member. split.
    + intros [[?|(Hname & Hg & info & Hinfo & Hlen)]|(Hg & info & Hin & Hlen)].
      * by left.
      * right. split; [done|]. exists info. split; [|done].
        destruct member as [n i]. simpl in *. subst. by left.
      * right. split; [done|]. exists info. split; [by right|done].
    + intros [?|(Hg & info & Hin & Hlen)]; [by left; left|].
      apply elem_of_cons in Hin as [<-|Hin].
      * left. right. simpl. eauto.
      * right. eauto.
Qed.

Lemma members_unique {A : Type} (ms : list (string * A)) name x y :
  NoDup ms.*1 → (name, x) ∈ ms → (name, y) ∈ ms → x = y.
Proof.
  induction ms as [|[n z] ms IH]; simpl; intros Hnd Hx Hy.
  - by apply elem_of_nil in Hx.
  - apply NoDup_cons in Hnd as [Hfresh Hnd].
    apply elem_of_cons in Hx as [Hx|Hx]; apply elem_of_cons in Hy as [Hy|Hy].
    + congruence.
    + destruct Hfresh. injection Hx as <- _.
      apply list_elem_of_fmap. by exists (name, y).
    + destruct Hfresh. injection Hy as <- _.
      apply list_elem_of_fmap. by exists (name, x).
    + by apply IH.
Qed.

(** Once [__init__] is through, and whatever is added later, a gathered
    method is a multi-option listener exactly when its [_conf_listen] has
    more than one pair. *)
Lemma multi_of_object cls adds method_name info :
  NoDup (members cls).*1 →
  (method_name, Some info) ∈ members cls →
  gathered cls method_name = true →
  bool_decide (method_name ∈
     _multi_option_listeners (add_all cls adds (object (__init__ cls))))
  = bool_decide (1 < length info)%nat.
Proof.
  intros Hnd Hin Hg. apply bool_decide_ext.
  rewrite multi_add_all. unfold __init__, _merge_none_observers,
    _gather_observers. simpl.
  rewrite multi_gather_from. simpl. split.
  - intros [Hempty|(_ & info' & Hin' & Hlen)].
    + by apply not_elem_of_empty in Hempty.
    + assert (Some info' = Some info) as [= ->]
        by exact (members_unique _ _ _ _ Hnd Hin' Hin).
      done.
  - intros Hlen. right. eauto.
Qed.

Lemma registered_by_gather cls method_name info section opt :
  (method_name, Some info) ∈ members cls →
  gathered cls method_name = true →
  (section, opt) ∈ info →
  MethodName method_name ∈ registered_for (gather_log cls) section opt.
Proof.
  intros Hin Hg Hpair. unfold registered_for, gather_log.
  apply list_elem_of_fmap.
  exists {| reg_func := MethodName method_name;
            reg_option := opt; reg_section := section |}.
  split; [done|]. apply list_elem_of_filter. split; [done|].
  apply list_elem_of_bind. exists (method_name, Some info). split; [|done].
  unfold member_log, method_log. simpl. rewrite Hg.
  apply list_elem_of_bind. exists (section, opt). split; [|done].
  by apply list_elem_of_singleton.
Qed.

(** * The model at work *)

(** In a class that leaves [CONF_SECTION] at [None], the receivers declared
    without a section are gone after [__init__]: they are merged under the
    key [None], which is then removed. *)
Example sectionless_class_drops_default_receivers :
  registered_for (gather_log sectionless_class) None (OptionName "wrap")
  = [MethodName "on_change"]
  ∧ (∀ section,
       receivers_of (object (__init__ sectionless_class)) section
                    (OptionName "wrap") = [])
  ∧ receivers_of (object (__init__ sectionless_class)) (Some "editor")
                 (OptionName "font") = [MethodName "on_font"]
  ∧ warned (__init__ sectionless_class) = true.
Proof.
  split; [by vm_compute|]. split; [|by vm_compute].
  intros [s|].
  - rewrite receivers_of_init. simpl.
    unfold registered_for.
    induction (gather_log sectionless_class) as [|r log IH] eqn:Hlog; [done|].
    clear IH. vm_compute in Hlog. injection Hlog as <- <-.
    rewrite !filter_cons.
    repeat (destruct (decide _) as [[? [=]]|_]; simpl).
    done.
  - unfold __init__. simpl. by rewrite receivers_of_merge.
Qed.

(** * More on the listener registry *)

(** X1.  [_add_listener(func, option, section)] puts [func] at the end of
    the list of the pair [(section, option)], also when the section or the
    option is new, and changes nothing else: the list of every other pair
    and the set of multi-option listeners are as before.  Registering the
    same receiver twice stores it twice. *)
Theorem add_listener_appends
    (func : Receiver) (opt : ConfigurationKey) (section : SectionKey)
    (self : ObserverState) :
  receivers_of (_add_listener func opt section self) section opt
  = receivers_of self section opt ++ [func]
  ∧ (∀ section' opt',
       (section', opt') ≠ (section, opt) →
       receivers_of (_add_listener func opt section self) section' opt'
       = receivers_of self section' opt')
  ∧ _multi_option_listeners (_add_listener func opt section self)
    = _multi_option_listeners self
  ∧ receivers_of (_add_listener func opt section
                    (_add_listener func opt section self)) section opt
    = receivers_of self section opt ++ [func; func].
Proof.
  split; [|split; [|split]].
  - rewrite receivers_of_add_listener. by rewrite decide_True.
  - intros section' opt' Hne. rewrite receivers_of_add_listener.
    rewrite decide_False; [by rewrite app_nil_r|].
    intros [-> ->]. by apply Hne.
  - reflexivity.
  - rewrite !receivers_of_add_listener, !decide_True by done.
    by rewrite <- app_assoc.
Qed.

Lemma add_listener_commute_same_section f g opt opt' section self :
  opt ≠ opt' →
  _add_listener f opt section (_add_listener g opt' section self)
  = _add_listener g opt' section (_add_listener f opt section self).
Proof.
  intros Hne. unfold _add_listener. simpl. f_equal.
  rewrite !lookup_insert_eq. simpl.
  rewrite !insert_insert_eq.
  rewrite !lookup_insert_ne by done.
  f_equal. apply insert_insert_ne. done.
Qed.

Lemma add_listener_commute_sections f g opt opt' section section' self :
  section ≠ section' →
  _add_listener f opt section (_add_listener g opt' section' self)
  = _add_listener g opt' section' (_add_listener f opt section self).
Proof.
  intros Hne. unfold _add_listener. simpl. f_equal.
  rewrite !lookup_insert_ne by done.
  apply insert_insert_ne. done.
Qed.

(** X2.  Registrations for different pairs do not interfere: two calls of
    [_add_listener] for pairs that differ in the section or in the option
    leave the same object in either order.  (For the same pair the order
    shows: it is the order of the list.) *)
Theorem add_listener_commutes
    (f g : Receiver) (opt opt' : ConfigurationKey)
    (section section' : SectionKey) (self : ObserverState) :
  (section, opt) ≠ (section', opt') →
  _add_listener f opt section (_add_listener g opt' section' self)
  = _add_listener g opt' section' (_add_listener f opt section self).
Proof.
  intros Hne. destruct (decide (section = section')) as [<-|Hs].
  - apply add_listener_commute_same_section. intros <-. by apply Hne.
  - by apply add_listener_commute_sections.
Qed.

Lemma add_listener_commutes_witness :
  (Some "editor", OptionName "font") ≠ (Some "editor", OptionName "wrap")
  ∧ _add_listener (Callable 1) (OptionName "font") (Some "editor")
      (_add_listener (Callable 2) (OptionName "wrap") (Some "editor")
         (object (__init__ editor_class)))
    = _add_listener (Callable 2) (OptionName "wrap") (Some "editor")
        (_add_listener (Callable 1) (OptionName "font") (Some "editor")
           (object (__init__ editor_class))).
Proof.
  assert (H : (Some "editor", OptionName "font")
              ≠ (Some "editor", OptionName "wrap")) by discriminate.
  split; [exact H|].
  exact (add_listener_commutes (Callable 1) (Callable 2) (OptionName "font")
           (OptionName "wrap") (Some "editor") (Some "editor")
           (object (__init__ editor_class)) H).
Defined.

Lemma merge_selectors_empty
    (section_selectors : gmap ConfigurationKey (list Receiver)) :
  merge_selectors ∅ section_selectors = section_selectors.
Proof. unfold merge_selectors. apply map_fold_empty. Qed.

(** X3.  [_merge_none_observers] is idempotent: a second call changes
    nothing, for every registry and every [CONF_SECTION]. *)
Theorem merge_none_observers_idempotent
    (cls : ObserverClass) (self : ObserverState) :
  _merge_none_observers cls (_merge_none_observers cls self)
  = _merge_none_observers cls self.
Proof.
  unfold _merge_none_observers at 1.
  rewrite (no_None_after_merge cls self). simpl default at 1.
  rewrite merge_selectors_empty.
  destruct (_merge_none_observers cls self) as [listeners multi] eqn:Hm.
  simpl. f_equal.
  assert (Hnone : listeners !! None = None).
  { pose proof (no_None_after_merge cls self) as H. by rewrite Hm in H. }
  destruct (CONF_SECTION cls) as [s|] eqn:Hs.
  - assert (His : is_Some (listeners !! Some s)).
    { assert (listeners = _configuration_listeners
                            (_merge_none_observers cls self)) as ->
        by (by rewrite Hm).
      unfold _merge_none_observers. simpl.
      rewrite lookup_delete_ne by done. rewrite Hs, lookup_insert_eq. eauto. }
    destruct His as [selectors Hsel]. rewrite Hsel. simpl.
    rewrite insert_id by done. by apply delete_id.
  - rewrite delete_insert_eq. by apply delete_id.
Qed.

(** X4.  What [_merge_none_observers] does to an arbitrary registry, pair
    by pair: nothing is left under [None]; under [CONF_SECTION], when it is
    a name, an option has the receivers it had under [None] followed by
    those it had under the name, so no receiver is lost and none is added;
    every other section is as before.  When [CONF_SECTION] is [None] the
    receivers stored under [None] are lost. *)
Theorem merge_none_observers_receivers
    (cls : ObserverClass) (self : ObserverState) (opt : ConfigurationKey) :
  receivers_of (_merge_none_observers cls self) None opt = []
  ∧ (∀ s : string,
       CONF_SECTION cls = Some s →
       receivers_of (_merge_none_observers cls self) (Some s) opt
       = receivers_of self None opt ++ receivers_of self (Some s) opt)
  ∧ (∀ s : string,
       CONF_SECTION cls ≠ Some s →
       receivers_of (_merge_none_observers cls self) (Some s) opt
       = receivers_of self (Some s) opt)
  ∧ _multi_option_listeners (_merge_none_observers cls self)
    = _multi_option_listeners self.
Proof.
  split; [|split; [|split]].
  - by rewrite receivers_of_merge.
  - intros s Hs. rewrite receivers_of_merge. by rewrite decide_True.
  - intros s Hs. rewrite receivers_of_merge. by rewrite decide_False.
  - reflexivity.
Qed.

(** * What [__init__] subscribes to *)

Lemma elem_of_map_keys `{Countable K} {A : Type} (m : gmap K A) (k : K) :
  k ∈ (map_to_list m).*1 ↔ is_Some (m !! k).
Proof.
  rewrite list_elem_of_fmap. split.
  - intros ([k' x] & -> & Hin). apply elem_of_map_to_list in Hin. eauto.
  - intros [x Hx]. exists (k, x). split; [done|].
    by apply elem_of_map_to_list.
Qed.

Lemma receivers_of_nonempty self section opt :
  listeners_wf self →
  receivers_of self section opt ≠ []
  ↔ ∃ selectors,
      _configuration_listeners self !! section = Some selectors
      ∧ is_Some (selectors !! opt).
Proof.
  intros Hwf. unfold receivers_of. split.
  - destruct (_configuration_listeners self !! section) as [selectors|];
      simpl; [|by rewrite lookup_empty].
    intros Hne. exists selectors. split; [done|].
    destruct (selectors !! opt); [eauto|done].
  - intros (selectors & Hsel & [receivers Hr]).
    rewrite Hsel. simpl. rewrite Hr. simpl.
    exact (Hwf _ _ _ _ Hsel Hr).
Qed.

(** The pairs handed to [CONF.observe_configuration] by a registry that
    has nothing under [None]. *)
Lemma elem_of_observed_pairs cls self section opt :
  listeners_wf self →
  _configuration_listeners self !! None = None →
  (section, opt) ∈ observed_pairs cls self
  ↔ section ≠ None ∧ receivers_of self section opt ≠ [].
Proof.
  intros Hwf Hnone. rewrite (receivers_of_nonempty _ _ _ Hwf).
  unfold observed_pairs. rewrite list_elem_of_bind. split.
  - intros (key & Hpair & Hkey).
    apply elem_of_map_keys in Hkey as [selectors Hsel].
    destruct key as [s|]; [|by rewrite Hnone in Hsel].
    simpl in Hpair. rewrite Hsel in Hpair. simpl in Hpair.
    apply list_elem_of_bind in Hpair as (o & Hpair & Ho).
    apply list_elem_of_singleton in Hpair as [= -> ->].
    apply elem_of_map_keys in Ho. split; [done|]. eauto.
  - intros (Hsome & selectors & Hsel & Ho).
    destruct section as [s|]; [|done].
    exists (Some s). split; [|apply elem_of_map_keys; eauto].
    simpl. rewrite Hsel. simpl.
    apply list_elem_of_bind. exists opt. split; [by left|].
    by apply elem_of_map_keys.
Qed.

Lemma NoDup_observed_pairs cls self :
  _configuration_listeners self !! None = None →
  NoDup (observed_pairs cls self).
Proof.
  intros Hnone. unfold observed_pairs. apply NoDup_bind.
  - intros key1 key2 pair Hk1 Hk2 H1 H2.
    apply elem_of_map_keys in Hk1 as [sel1 Hs1].
    apply elem_of_map_keys in Hk2 as [sel2 Hs2].
    destruct key1 as [s1|]; [|by rewrite Hnone in Hs1].
    destruct key2 as [s2|]; [|by rewrite Hnone in Hs2].
    simpl in H1, H2.
    apply list_elem_of_bind in H1 as (o1 & H1 & _).
    apply list_elem_of_bind in H2 as (o2 & H2 & _).
    apply list_elem_of_singleton in H1. apply list_elem_of_singleton in H2.
    congruence.
  - intros key Hkey. apply NoDup_bind.
    + intros o1 o2 pair _ _ H1 H2.
      apply list_elem_of_singleton in H1. apply list_elem_of_singleton in H2.
      congruence.
    + intros o _. apply NoDup_singleton.
    + apply NoDup_fst_map_to_list.
  - apply NoDup_fst_map_to_list.
Qed.

(** X5.  [__init__] subscribes the object to the configuration manager for
    exactly the pairs it has a receiver for: [CONF.observe_configuration]
    is called for [(section, option)] if and only if the section is a name
    and the pair has a receiver in [_configuration_listeners]; never with
    [None] as the section, and once for each pair. *)
Theorem init_observes_registered_pairs
    (cls : ObserverClass) (section : SectionKey) (opt : ConfigurationKey) :
  ((section, opt) ∈ observing (__init__ cls)
   ↔ section ≠ None
     ∧ receivers_of (object (__init__ cls)) section opt ≠ [])
  ∧ ((None, opt) ∉ observing (__init__ cls))
  ∧ NoDup (observing (__init__ cls)).
Proof.
  assert (Hwf : listeners_wf (object (__init__ cls)))
    by apply wf_merge, wf_gather, wf_empty.
  assert (Hnone : _configuration_listeners (object (__init__ cls)) !! None
                  = None) by apply no_None_after_merge.
  assert (Hiff : ∀ section,
    (section, opt) ∈ observing (__init__ cls)
    ↔ section ≠ None
      ∧ receivers_of (object (__init__ cls)) section opt ≠ [])
    by (intros s; exact (elem_of_observed_pairs cls _ s opt Hwf Hnone)).
  split; [apply Hiff|]. split.
  - intros Hin. apply Hiff in Hin as [? _]. done.
  - exact (NoDup_observed_pairs cls _ Hnone).
Qed.

(** * Which receivers an object holds *)

Lemma gathered_of_registered cls name section opt :
  MethodName name ∈ registered_for (gather_log cls) section opt →
  ∃ info, (name, Some info) ∈ members cls
          ∧ gathered cls name = true
          ∧ (section, opt) ∈ info.
Proof.
  unfold registered_for, gather_log.
  intros (r & Hfunc & Hr)%list_elem_of_fmap.
  apply list_elem_of_filter in Hr as [[Hsec Hopt] Hr].
  apply list_elem_of_bind in Hr as ([n conf_listen] & Hr & Hmember).
  unfold member_log in Hr. simpl in Hr.
  destruct (gathered cls n) eqn:Hg; [|by apply elem_of_nil in Hr].
  destruct conf_listen as [info|]; [|by apply elem_of_nil in Hr].
  simpl in Hr. unfold method_log in Hr.
  apply list_elem_of_bind in Hr as ([s o] & Hr & Hpair).
  apply list_elem_of_singleton in Hr. subst r. simpl in *.
  injection Hfunc as ->. subst. eauto.
Qed.

Lemma callable_of_add_log cls adds section opt receiver :
  Forall (λ a, ∃ id, add_func a = Callable id) adds →
  receiver ∈ registered_for (add_log cls adds) section opt →
  ∃ id, receiver = Callable id.
Proof.
  intros Hadds. unfold registered_for, add_log.
  intros (r & -> & Hr)%list_elem_of_fmap.
  apply list_elem_of_filter in Hr as [_ Hr].
  apply list_elem_of_fmap in Hr as (a & -> & Ha). simpl.
  rewrite Forall_forall in Hadds. by apply Hadds.
Qed.

Lemma stored_names_origin
    (cls : ObserverClass) (adds : list Addition)
    (section : SectionKey) (opt : ConfigurationKey) (name : string) :
  Forall (λ a, ∃ id, add_func a = Callable id) adds →
  MethodName name
    ∈ receivers_of (add_all cls adds (object (__init__ cls))) section opt →
  ∃ info,
    (name, Some info) ∈ members cls
    ∧ ((section, opt) ∈ info
       ∨ (section = CONF_SECTION cls ∧ (None, opt) ∈ info))
    ∧ ¬ (PYSIDE6 cls = true ∧ name ∈ pyside6_skipped).
Proof.
  intros Hadds Hin.
  assert (Hgather :
    MethodName name ∈ registered_for (gather_log cls) section opt
    ∨ (section = CONF_SECTION cls
       ∧ MethodName name ∈ registered_for (gather_log cls) None opt)).
  { rewrite receivers_of_add_all in Hin.
    apply elem_of_app in Hin as [Hin|Hin].
    - unfold __init__ in Hin. simpl in Hin.
      rewrite receivers_of_merge in Hin.
      destruct section as [s|]; [|by apply elem_of_nil in Hin].
      rewrite !receivers_of_gather in Hin.
      destruct (decide (CONF_SECTION cls = Some s)) as [Hs|Hs]; [|by left].
      apply elem_of_app in Hin as [Hin|Hin]; [by right|by left].
    - by destruct (callable_of_add_log _ _ _ _ _ Hadds Hin). }
  assert (Hskip : gathered cls name = true →
                  ¬ (PYSIDE6 cls = true ∧ name ∈ pyside6_skipped)).
  { unfold gathered. intros Hg [Hp Hs]. rewrite Hp in Hg.
    by rewrite bool_decide_eq_true_2 in Hg. }
  destruct Hgather as [H|[Hs H]];
    apply gathered_of_registered in H as (info & Hm & Hg & Hpair);
    exists info; (split; [exact Hm|]); (split; [|by apply Hskip]).
  - by left.
  - by right.
Qed.

(** X6.  The method names an object holds are those of its class: after
    [__init__] and any number of [add_configuration_observer] calls with
    callables, a name stored for a pair is a name of [dir(self)] whose
    attribute carries [_conf_listen], with the pair in it (the pair as
    declared, or declared without a section when the section is
    [CONF_SECTION]); and it is never one of the names passed over under
    [PYSIDE6]. *)
Theorem stored_names_are_decorated_members
    (cls : ObserverClass) (adds : list Addition)
    (section : SectionKey) (opt : ConfigurationKey) (name : string) :
  Forall (λ a, ∃ id, add_func a = Callable id) adds →
  MethodName name
    ∈ receivers_of (add_all cls adds (object (__init__ cls))) section opt →
  ∃ info,
    (name, Some info) ∈ members cls
    ∧ ((section, opt) ∈ info
       ∨ (section = CONF_SECTION cls ∧ (None, opt) ∈ info))
    ∧ ¬ (PYSIDE6 cls = true ∧ name ∈ pyside6_skipped).
Proof. apply stored_names_origin. Qed.

Lemma stored_names_are_decorated_members_witness :
  ∃ info,
    ("on_change", Some info) ∈ members editor_class
    ∧ ((Some "editor", OptionName "wrap") ∈ info
       ∨ (Some "editor" = CONF_SECTION editor_class
          ∧ (None, OptionName "wrap") ∈ info))
    ∧ ¬ (PYSIDE6 editor_class = true ∧ "on_change" ∈ pyside6_skipped).
Proof.
  apply (stored_names_are_decorated_members editor_class
           [ {| add_func := Callable 0; add_option := OptionName "wrap";
                add_section := None |} ]
           (Some "editor") (OptionName "wrap") "on_change").
  - repeat constructor. by exists 0%nat.
  - vm_compute. by left.
Defined.

(** * More on [SpyderConfigurationAccessor] *)

Section AccessorMore.
Context {Value Reply ConfState : Type}.
Variable CONF :
  @Accessor.ConfCall Value → ConfState → ConfState * (Reply + ExcClass).

(** X10.  With a section to use, an accessor is its one call on [CONF]:
    the state [CONF] leaves is the state after the accessor, an exception
    of [CONF] comes out unchanged (nothing is caught or replaced), and a
    reply is returned by [get_conf], [get_conf_options] and
    [get_conf_default] and dropped by [set_conf] and [remove_conf], which
    return [None]. *)
Theorem accessor_hands_CONF_through
    (self : SpyderConfigurationAccessor) (c : Accessor.AccessorCall)
    (conf : ConfState) :
  let r := Accessor.run CONF self c conf in
  (∀ e, Accessor.outcome r = Propagates e →
     ∃ call, Accessor.conf_calls r = [call]
             ∧ CONF call conf = (Accessor.conf_after r, inr e))
  ∧ (∀ v, Accessor.outcome r = Returned v →
     ∃ call reply,
       Accessor.conf_calls r = [call]
       ∧ CONF call conf = (Accessor.conf_after r, inl reply)
       ∧ v = match c with
             | Accessor.Set_conf _ _ _ _ _ | Accessor.Remove_conf _ _ _ => None
             | _ => Some reply
             end).
Proof.
  simpl.
  destruct (Accessor.effective_section self (Accessor.section_argument c))
    as [section|] eqn:Hs.
  - destruct c; simpl in Hs |- *;
      unfold Accessor.get_conf, Accessor.get_conf_options, Accessor.set_conf,
        Accessor.remove_conf, Accessor.get_conf_default;
      rewrite Hs; unfold Accessor.discard_reply, Accessor.call_CONF;
      (match goal with
       | |- context [CONF ?call conf] =>
           destruct (CONF call conf) as [conf' [reply|e']] eqn:Hcall
       end);
      simpl; (split; [intros e He | intros v Hv]);
      try discriminate;
      try (injection He as <-; eexists; split; [reflexivity|exact Hcall]);
      try (injection Hv as <-; eexists _, _;
           split; [reflexivity|split; [exact Hcall|reflexivity]]).
  - rewrite (run_without_section CONF self c conf Hs). simpl.
    split; intros ? [=].
Qed.

End AccessorMore.

(** * Properties of [get_option] and [set_option] *)




(** X11.  [set_option] writes where [get_option] reads: for the same
    option name and section, the two methods address the same option of
    the same section of the configuration, whatever the default and the
    value; and a string addresses the same option as the tuple holding
    just that string when no section is given. *)
Theorem set_option_addresses_what_get_option_reads
    (self : SpyderCompletionProvider)
    (option_name : ProviderOptions.LocalOption)
    (default value : PyVal) (section : option string) (name : string) :
  ProviderOptions.addressed
    (ProviderOptions.set_option self option_name value section)
  = ProviderOptions.addressed
      (ProviderOptions.get_option self option_name default section)
  ∧ ProviderOptions.addressed
      (ProviderOptions.get_option self (ProviderOptions.LocalName name)
         default None)
    = ProviderOptions.addressed
        (ProviderOptions.get_option self (ProviderOptions.LocalPath [name])
           default None).
Proof. split; [by destruct section, option_name|done]. Qed.


(** * Properties of [get_python_lsp_version] *)

Lemma all_chars_impl (p q : Ascii.ascii → bool) (s : string) :
  (∀ c, p c = true → q c = true) →
  PyString.all_chars p s = true → PyString.all_chars q s = true.
Proof.
  intros Hpq. induction s as [|c s IH]; simpl; [done|].
  intros [Hc Hs]%andb_true_iff. rewrite (Hpq c Hc). simpl. by apply IH.
Qed.

Lemma append_cons c (s t : string) : String c s +:+ t = String c (s +:+ t).
Proof. reflexivity. Qed.

Lemma append_nil_l (t : string) : "" +:+ t = t.
Proof. reflexivity. Qed.

Lemma all_chars_app p (s t : string) :
  PyString.all_chars p (s +:+ t)
  = PyString.all_chars p s && PyString.all_chars p t.
Proof.
  induction s as [|c s IH]; [done|].
  rewrite append_cons. simpl. rewrite IH. by rewrite andb_assoc.
Qed.

Lemma append_assoc (s t u : string) : (s +:+ t) +:+ u = s +:+ (t +:+ u).
Proof.
  induction s as [|c s IH]; [done|].
  rewrite !append_cons. by f_equal.
Qed.

Lemma append_nil_r (s : string) : s +:+ "" = s.
Proof.
  induction s as [|c s IH]; [done|].
  rewrite append_cons. by f_equal.
Qed.

Lemma append_not_empty (s : string) c t : s +:+ String c t ≠ "".
Proof. by destruct s. Qed.

Lemma digit_not_space c :
  PyString.is_digit c = true → PyString.is_space c = false.
Proof.
  unfold PyString.is_digit, PyString.is_space.
  generalize (Ascii.nat_of_ascii c). intros n.
  intros [H1 H2]%andb_true_iff.
  apply Nat.leb_le in H1. apply Nat.leb_le in H2.
  repeat (apply orb_false_iff; split);
    try (apply andb_false_iff; right; apply Nat.leb_gt; lia);
    try (apply andb_false_iff; left; apply Nat.leb_gt; lia);
    apply Nat.eqb_neq; lia.
Qed.

Lemma newline_is_space c :
  PyString.is_newline c = true → PyString.is_space c = true.
Proof.
  unfold PyString.is_newline, PyString.is_space.
  intros ->%Nat.eqb_eq. reflexivity.
Qed.

Lemma digit_not_comma c :
  PyString.is_digit c = true → PyString.is_comma c = false.
Proof.
  unfold PyString.is_digit, PyString.is_comma.
  generalize (Ascii.nat_of_ascii c). intros n.
  intros [H1 H2]%andb_true_iff.
  apply Nat.leb_le in H1. apply Nat.leb_le in H2.
  apply Nat.eqb_neq. lia.
Qed.

(** The words of [split] hold no whitespace and are not empty. *)
Lemma split_from_words (word s : string) :
  PyString.all_chars (λ c, negb (PyString.is_space c)) word = true →
  Forall (λ w, w ≠ ""
               ∧ PyString.all_chars (λ c, negb (PyString.is_space c)) w = true)
         (PyString.split_from word s).
Proof.
  revert word. induction s as [|c s IH]; intros word Hword; simpl.
  - destruct word; simpl; [constructor|]. by repeat constructor.
  - destruct (PyString.is_space c) eqn:Hc.
    + apply Forall_app. split; [|by apply IH].
      destruct word; simpl; [constructor|]. by repeat constructor.
    + apply IH. rewrite all_chars_app, Hword. simpl. by rewrite Hc.
Qed.

Lemma before_comma_chars p (s : string) :
  PyString.all_chars p s = true →
  PyString.all_chars p (PyString.before_comma s) = true.
Proof.
  induction s as [|c s IH]; simpl; [done|].
  intros [Hc Hs]%andb_true_iff.
  destruct (PyString.is_comma c); simpl; [done|].
  rewrite Hc. by apply IH.
Qed.

Lemma before_comma_no_comma (s : string) :
  PyString.all_chars (λ c, negb (PyString.is_comma c))
                     (PyString.before_comma s) = true.
Proof.
  induction s as [|c s IH]; simpl; [done|].
  destruct (PyString.is_comma c) eqn:Hc; simpl; [done|].
  by rewrite Hc.
Qed.

Lemma until_newline_chars p (s : string) :
  PyString.all_chars p s = true →
  PyString.all_chars p (PyString.until_newline s) = true.
Proof.
  induction s as [|c s IH]; simpl; [done|].
  intros [Hc Hs]%andb_true_iff.
  destruct (PyString.is_newline c); simpl; [done|].
  rewrite Hc. by apply IH.
Qed.

Lemma until_newline_id (s : string) :
  PyString.all_chars (λ c, negb (PyString.is_space c)) s = true →
  PyString.until_newline s = s.
Proof.
  induction s as [|c s IH]; simpl; [done|].
  intros [Hc Hs]%andb_true_iff.
  destruct (PyString.is_newline c) eqn:Hn.
  - apply newline_is_space in Hn. by rewrite Hn in Hc.
  - by rewrite IH.
Qed.

Lemma search_version_chars p (s v : string) :
  PyString.search_version s = Some v →
  PyString.all_chars p s = true →
  PyString.all_chars p v = true.
Proof.
  induction s as [|c s IH]; simpl; [done|].
  destruct (PyString.is_digit c).
  - intros [= <-] H. by apply (until_newline_chars p (String c s)).
  - intros Hv [_ Hs]%andb_true_iff. by apply IH.
Qed.

Lemma search_version_digit (s v : string) :
  PyString.search_version s = Some v →
  ∃ c rest, v = String c rest ∧ PyString.is_digit c = true.
Proof.
  induction s as [|c s IH]; simpl; [done|].
  destruct (PyString.is_digit c) eqn:Hd; [|done].
  intros [= <-].
  destruct (PyString.is_newline c) eqn:Hn.
  - apply newline_is_space in Hn. by rewrite (digit_not_space c Hd) in Hn.
  - eauto.
Qed.

Lemma flush_nonempty c (w : string) :
  PyString.flush (String c w) = [String c w].
Proof. reflexivity. Qed.

Lemma split_from_rstrip (s word : string) :
  PyString.split_from word (PyString.rstrip s) = PyString.split_from word s.
Proof.
  revert word. induction s as [|c s IH]; intros word; [done|].
  simpl. destruct (PyString.rstrip s) as [|k kept] eqn:Hr.
  - destruct (PyString.is_space c) eqn:Hc; simpl; rewrite ?Hc.
    + rewrite <- IH. simpl. by rewrite app_nil_r.
    + by rewrite <- IH.
  - simpl PyString.split_from at 1.
    destruct (PyString.is_space c); by rewrite <- IH.
Qed.

Lemma split_from_lstrip (s : string) :
  PyString.split_from "" (PyString.lstrip s) = PyString.split_from "" s.
Proof.
  induction s as [|c s IH]; [done|].
  simpl. destruct (PyString.is_space c) eqn:Hc; [by rewrite IH|].
  simpl. by rewrite Hc.
Qed.

(** Stripping a line before splitting it changes nothing. *)
Lemma split_strip (s : string) :
  PyString.split (PyString.strip s) = PyString.split s.
Proof.
  unfold PyString.split, PyString.strip.
  by rewrite split_from_rstrip, split_from_lstrip.
Qed.

Lemma split_from_word (word u s : string) :
  PyString.all_chars (λ c, negb (PyString.is_space c)) u = true →
  PyString.split_from word (u +:+ s) = PyString.split_from (word +:+ u) s.
Proof.
  revert word. induction u as [|c u IH]; intros word Hu.
  - by rewrite append_nil_l, append_nil_r.
  - simpl in Hu. apply andb_true_iff in Hu as [Hc Hu].
    rewrite append_cons. simpl.
    destruct (PyString.is_space c); [done|].
    rewrite IH by done. by rewrite append_assoc.
Qed.

(** The first word read when a word is under way: the characters read so
    far, and those up to the next whitespace. *)
Lemma split_from_head (s word : string) :
  word ≠ "" →
  ∃ more following,
    PyString.split_from word s = (word +:+ more) :: following
    ∧ (more = ""
       ∨ ∃ c t more', s = String c t ∧ PyString.is_space c = false
                      ∧ more = String c more').
Proof.
  revert word. induction s as [|c s IH]; intros word Hword.
  - exists "", []. rewrite append_nil_r. simpl.
    destruct word; [done|]. split; [reflexivity|by left].
  - simpl. destruct (PyString.is_space c) eqn:Hc.
    + exists "", (PyString.split_from "" s). rewrite append_nil_r.
      destruct word; [done|]. split; [reflexivity|by left].
    + destruct (IH (word +:+ String c ""))
        as (more & following & Heq & _); [apply append_not_empty|].
      exists (String c more), following. split.
      * rewrite Heq. by rewrite append_assoc.
      * right. by exists c, s, more.
Qed.

Lemma before_comma_app (u t : string) :
  PyString.all_chars (λ c, negb (PyString.is_comma c)) u = true →
  PyString.before_comma (u +:+ t) = u +:+ PyString.before_comma t.
Proof.
  induction u as [|c u IH]; [done|].
  intros Hu. simpl in Hu. apply andb_true_iff in Hu as [Hc Hu].
  rewrite !append_cons. simpl.
  destruct (PyString.is_comma c); [done|]. by rewrite IH.
Qed.

Lemma search_version_skip (op s : string) :
  PyString.all_chars (λ c, negb (PyString.is_digit c)) op = true →
  PyString.search_version (op +:+ s) = PyString.search_version s.
Proof.
  induction op as [|c op IH]; [done|].
  intros Hop. simpl in Hop. apply andb_true_iff in Hop as [Hc Hop].
  rewrite append_cons. simpl.
  destruct (PyString.is_digit c); [done|]. by apply IH.
Qed.

Lemma prefix_append (s t : string) : String.prefix s (s +:+ t) = true.
Proof.
  induction s as [|c s IH]; [by destruct t|].
  rewrite append_cons. simpl.
  by destruct (Ascii.ascii_dec c c).
Qed.

Lemma contains_append (sub t : string) :
  PyString.contains sub (sub +:+ t) = true.
Proof.
  pose proof (prefix_append sub t) as H.
  destruct (sub +:+ t); cbn [PyString.contains]; by rewrite H.
Qed.

Lemma version_not_unbound (line : string) (rest : list string) :
  PyString.contains "python-lsp-server" line = true →
  InstallSubrepos.get_python_lsp_version (line :: rest)
  ≠ Propagates InstallSubrepos.UnboundLocalError.
Proof.
  intros Hline. simpl. rewrite Hline. simpl.
  destruct (PyString.split (PyString.strip line) !! 1%nat); [|discriminate].
  destruct (PyString.search_version _); discriminate.
Qed.

Lemma version_skips (before : list string) (lines : list string) :
  Forall (λ l, PyString.contains "python-lsp-server" l = false) before →
  InstallSubrepos.get_python_lsp_version (before ++ lines)
  = InstallSubrepos.get_python_lsp_version lines.
Proof.
  induction 1 as [|l before Hl _ IH]; [done|].
  simpl. by rewrite Hl.
Qed.

Lemma version_first_line (line : string) (rest : list string) :
  PyString.contains "python-lsp-server" line = true →
  InstallSubrepos.get_python_lsp_version (line :: rest)
  = InstallSubrepos.get_python_lsp_version [line].
Proof.
  intros Hline. simpl. rewrite Hline. simpl.
  destruct (PyString.split (PyString.strip line) !! 1%nat); [|done].
  by destruct (PyString.search_version _).
Qed.

(** X13.  Which line [get_python_lsp_version] reads: the first line that
    mentions [python-lsp-server] decides alone, whether it yields a
    version or an exception; the lines before it that do not mention the
    package and all the lines after it make no difference.  The function
    fails with [UnboundLocalError] exactly when no line mentions the
    package. *)
Theorem first_mention_decides (lines : list string) :
  (InstallSubrepos.get_python_lsp_version lines
   = Propagates InstallSubrepos.UnboundLocalError
   ↔ Forall (λ l, PyString.contains "python-lsp-server" l = false) lines)
  ∧ (∀ before line after,
       lines = before ++ line :: after →
       Forall (λ l, PyString.contains "python-lsp-server" l = false) before →
       PyString.contains "python-lsp-server" line = true →
       InstallSubrepos.get_python_lsp_version lines
       = InstallSubrepos.get_python_lsp_version [line]).
Proof.
  split.
  - induction lines as [|l lines IH]; [done|].
    destruct (PyString.contains "python-lsp-server" l) eqn:Hl.
    + split.
      * intros H. by apply version_not_unbound in H.
      * intros H. apply Forall_cons in H as [H _]. congruence.
    + rewrite Forall_cons. rewrite <- IH. simpl. rewrite Hl. simpl.
      tauto.
  - intros before line after -> Hbefore Hline.
    rewrite version_skips by done. by apply version_first_line.
Qed.

(** X14.  What [get_python_lsp_version] returns is a bare version number:
    it starts with a digit and holds no whitespace and no comma; so of a
    requirement such as [>=1.12.0,<1.13.0] neither the comparison signs
    nor the upper bound get into [SETUPTOOLS_SCM_PRETEND_VERSION]. *)
Theorem returned_version_is_bare (lines : list string) (version : string) :
  InstallSubrepos.get_python_lsp_version lines = Returned version →
  (∃ c rest, version = String c rest ∧ PyString.is_digit c = true)
  ∧ PyString.all_chars (λ c, negb (PyString.is_space c)) version = true
  ∧ PyString.all_chars (λ c, negb (PyString.is_comma c)) version = true.
Proof.
  induction lines as [|line lines IH]; [done|].
  simpl. destruct (PyString.contains "python-lsp-server" line); simpl;
    [|exact IH].
  destruct (PyString.split (PyString.strip line) !! 1%nat) as [word|] eqn:Hw;
    [|done].
  destruct (PyString.search_version (PyString.before_comma word))
    as [v|] eqn:Hv; [|done].
  intros [= ->].
  assert (Hword : PyString.all_chars (λ c, negb (PyString.is_space c)) word
                  = true).
  { pose proof (split_from_words "" (PyString.strip line) eq_refl) as Hall.
    rewrite Forall_forall in Hall.
    apply (Hall word). by eapply list_elem_of_lookup_2. }
  split; [by eapply search_version_digit|]. split.
  - eapply search_version_chars; [exact Hv|]. by apply before_comma_chars.
  - eapply search_version_chars; [exact Hv|]. apply before_comma_no_comma.
Qed.

Lemma returned_version_is_bare_witness :
  InstallSubrepos.get_python_lsp_version
    ["# deps"; "python-lsp-server >=1.12.0,<1.13.0"] = Returned "1.12.0"
  ∧ PyString.all_chars (λ c, negb (PyString.is_comma c)) "1.12.0" = true.
Proof.
  assert (H : InstallSubrepos.get_python_lsp_version
                ["# deps"; "python-lsp-server >=1.12.0,<1.13.0"]
              = Returned "1.12.0") by (by vm_compute).
  split; [exact H|].
  exact (proj2 (proj2 (returned_version_is_bare _ _ H))).
Defined.

Lemma first_mention_decides_example :
  InstallSubrepos.get_python_lsp_version
    ["numpy >=1"; "python-lsp-server"; "python-lsp-server >=1.12.0"]
  = Propagates InstallSubrepos.IndexError.
Proof. by vm_compute. Qed.

(** X15.  [get_python_lsp_version] gives the lower bound of a requirement
    line back: on a line made of [python-lsp-server], a space, comparison
    signs (no digit, comma or whitespace), a version (starting with a
    digit, without comma or whitespace) and then nothing, a comma or
    whitespace followed by anything, it returns that version, whatever the
    lines after it and the lines before it that do not mention the
    package. *)
Theorem version_of_requirement_line
    (before after : list string) (signs version rest : string) :
  Forall (λ l, PyString.contains "python-lsp-server" l = false) before →
  PyString.all_chars
    (λ c, negb (PyString.is_space c || PyString.is_comma c
                || PyString.is_digit c)) signs = true →
  (∃ c digits, version = String c digits ∧ PyString.is_digit c = true) →
  PyString.all_chars
    (λ c, negb (PyString.is_space c || PyString.is_comma c)) version = true →
  (rest = ""
   ∨ ∃ c t, rest = String c t
            ∧ PyString.is_space c || PyString.is_comma c = true) →
  InstallSubrepos.get_python_lsp_version
    (before
     ++ ("python-lsp-server" +:+ " " +:+ signs +:+ version +:+ rest) :: after)
  = Returned version.
Proof.
  intros Hbefore Hsigns (d & digits & Hversion & Hd) Hchars Hrest.
  rewrite version_skips by done.
  assert (Hns : ∀ p, (∀ c, negb (PyString.is_space c || PyString.is_comma c
                                 || p c) = true →
                           negb (PyString.is_space c) = true)).
  { intros p c. by destruct (PyString.is_space c). }
  assert (Hnc : ∀ p, (∀ c, negb (PyString.is_space c || PyString.is_comma c
                                 || p c) = true →
                           negb (PyString.is_comma c) = true)).
  { intros p c. destruct (PyString.is_space c); [done|].
    by destruct (PyString.is_comma c). }
  assert (Hsigns_space :
    PyString.all_chars (λ c, negb (PyString.is_space c)) signs = true)
    by (eapply all_chars_impl; [apply (Hns PyString.is_digit)|done]).
  assert (Hsigns_comma :
    PyString.all_chars (λ c, negb (PyString.is_comma c)) signs = true)
    by (eapply all_chars_impl; [apply (Hnc PyString.is_digit)|done]).
  assert (Hsigns_digit :
    PyString.all_chars (λ c, negb (PyString.is_digit c)) signs = true).
  { eapply all_chars_impl; [|exact Hsigns]. intros c. simpl.
    by destruct (PyString.is_space c), (PyString.is_comma c),
                (PyString.is_digit c). }
  assert (Hversion_space :
    PyString.all_chars (λ c, negb (PyString.is_space c)) version = true).
  { eapply all_chars_impl; [|exact Hchars]. intros c. simpl.
    by destruct (PyString.is_space c). }
  assert (Hversion_comma :
    PyString.all_chars (λ c, negb (PyString.is_comma c)) version = true).
  { eapply all_chars_impl; [|exact Hchars]. intros c. simpl.
    by destruct (PyString.is_space c), (PyString.is_comma c). }
  cbn [InstallSubrepos.get_python_lsp_version].
  rewrite contains_append. cbn [negb].
  rewrite split_strip. unfold PyString.split.
  rewrite (split_from_word "" "python-lsp-server") by reflexivity.
  rewrite append_nil_l.
  change (" " +:+ signs +:+ version +:+ rest)
    with (String (Ascii.Ascii false false false false false true false false)
                 (signs +:+ version +:+ rest)).
  cbn [PyString.split_from].
  change (PyString.is_space
            (Ascii.Ascii false false false false false true false false))
    with true. cbn iota.
  rewrite <- (append_assoc signs version rest).
  rewrite (split_from_word "" (signs +:+ version)); last first.
  { by rewrite all_chars_app, Hsigns_space, Hversion_space. }
  rewrite append_nil_l.
  destruct (split_from_head rest (signs +:+ version))
    as (more & following & -> & Hmore).
  { rewrite Hversion. apply append_not_empty. }
  simpl lookup.
  assert (Hcut : PyString.before_comma ((signs +:+ version) +:+ more)
                 = signs +:+ version).
  { rewrite before_comma_app
      by (by rewrite all_chars_app, Hsigns_comma, Hversion_comma).
    destruct Hmore as [->|(c & t & more' & Hr & Hspace & ->)].
    - apply append_nil_r.
    - destruct Hrest as [->|(c' & t' & Hr' & Hsep)]; [done|].
      rewrite Hr in Hr'. injection Hr' as <- <-.
      rewrite Hspace in Hsep. simpl in Hsep. simpl. rewrite Hsep.
      apply append_nil_r. }
  cbn iota beta. rewrite Hcut, search_version_skip by done.
  assert (Hsearch : PyString.search_version version
                    = Some (PyString.until_newline version)).
  { rewrite Hversion. cbn [PyString.search_version]. by rewrite Hd. }
  rewrite Hsearch.
  by rewrite (until_newline_id version Hversion_space).
Qed.

Lemma version_of_requirement_line_witness :
  InstallSubrepos.get_python_lsp_version
    ["# Runtime dependencies";
     "python-lsp-server" +:+ " " +:+ ">=" +:+ "1.12.0" +:+ ",<1.13.0"]
  = Returned "1.12.0".
Proof.
  apply (version_of_requirement_line ["# Runtime dependencies"] []
           ">=" "1.12.0" ",<1.13.0").
  - by repeat constructor.
  - reflexivity.
  - eexists _, _. split; reflexivity.
  - reflexivity.
  - right. eexists _, _. split; reflexivity.
Defined.

(** * Properties of [REPOS], [install_repo] and [main] *)

Section InstallProperties.
Context {Path : Type} `{EqDecision Path}.
Variable name : Path → string.
Variable as_posix : Path → string.
Variable get_distribution : string → option Path.
Variable sys_executable : string.
Variable os_environ : gmap string string.
Variable conda_txt : list string + ExcClass.
Variable str_format : string → string → string + ExcClass.

Local Abbreviation REPOS_of := (InstallSubrepos.build_REPOS name get_distribution).
Local Abbreviation install_repo :=
  (InstallSubrepos.install_repo as_posix sys_executable os_environ conda_txt
                                str_format).
Local Abbreviation main :=
  (InstallSubrepos.main as_posix sys_executable os_environ conda_txt
                        str_format).

(** The entry the loop stores for a directory. *)
Local Abbreviation entry_of p :=
  {| InstallSubrepos.repo := p;
     InstallSubrepos.dist := get_distribution (name p);
     InstallSubrepos.editable :=
       bool_decide (Some p = get_distribution (name p)) |}.

Lemma foldl_add_repo_other (l : list Path) m (n : string) :
  (∀ q, q ∈ l → name q ≠ n) →
  foldl (InstallSubrepos.add_repo name get_distribution) m l !! n = m !! n.
Proof.
  revert m. induction l as [|q l IH]; intros m Hl; [done|].
  simpl. rewrite IH by (intros; apply Hl; by right).
  unfold InstallSubrepos.add_repo.
  destruct (String.prefix "." (name q)); [done|].
  apply lookup_insert_ne. apply Hl. by left.
Qed.

Lemma foldl_add_repo_lookup (l : list Path) m (p : Path) :
  NoDup (name <$> l) →
  p ∈ l →
  String.prefix "." (name p) = false →
  foldl (InstallSubrepos.add_repo name get_distribution) m l !! name p
  = Some (entry_of p).
Proof.
  revert m. induction l as [|q l IH]; intros m Hnd Hin Hvisible.
  - by apply elem_of_nil in Hin.
  - rewrite fmap_cons in Hnd. apply NoDup_cons in Hnd as [Hfresh Hnd].
    simpl. apply elem_of_cons in Hin as [<-|Hin]; [|by apply IH].
    rewrite foldl_add_repo_other.
    + unfold InstallSubrepos.add_repo. rewrite Hvisible.
      apply lookup_insert_eq.
    + intros q Hq Hname. apply Hfresh. rewrite <- Hname.
      apply list_elem_of_fmap. by exists q.
Qed.

Lemma foldl_add_repo_inv (l : list Path) m (n : string) info :
  foldl (InstallSubrepos.add_repo name get_distribution) m l !! n = Some info →
  m !! n = Some info
  ∨ ∃ p, p ∈ l ∧ name p = n ∧ String.prefix "." n = false
         ∧ info = entry_of p.
Proof.
  revert m. induction l as [|q l IH]; intros m Hlook; [by left|].
  simpl in Hlook. apply IH in Hlook as [Hm|(p & Hp & ?)].
  - unfold InstallSubrepos.add_repo in Hm.
    destruct (String.prefix "." (name q)) eqn:Hq; [by left|].
    destruct (decide (name q = n)) as [<-|Hne].
    + rewrite lookup_insert_eq in Hm. injection Hm as <-.
      right. exists q. split; [by left|done].
    + rewrite lookup_insert_ne in Hm by done. by left.
  - right. exists p. split; [by right|done].
Qed.

(** X16.  What [REPOS] holds.  A key of [REPOS] is the name of a directory
    of [external-deps] that does not start with a dot, and its entry has
    that directory as ['repo'], the place of the installed distribution of
    that name as ['dist'] ([None] when there is none), and ['editable']
    true exactly when the two are the same path.  Directory names being
    distinct, every directory whose name does not start with a dot has its
    entry; a name that starts with a dot is never a key. *)
Theorem REPOS_entries (iterdir : list Path) :
  NoDup (name <$> iterdir) →
  (∀ p, p ∈ iterdir → String.prefix "." (name p) = false →
        InstallSubrepos.build_REPOS name get_distribution iterdir !! name p
        = Some (entry_of p))
  ∧ (∀ n info,
       InstallSubrepos.build_REPOS name get_distribution iterdir !! n = Some info →
       String.prefix "." n = false
       ∧ InstallSubrepos.repo info ∈ iterdir
       ∧ name (InstallSubrepos.repo info) = n
       ∧ InstallSubrepos.dist info = get_distribution n
       ∧ (InstallSubrepos.editable info = true
          ↔ InstallSubrepos.dist info = Some (InstallSubrepos.repo info)))
  ∧ (∀ n, String.prefix "." n = true →
          InstallSubrepos.build_REPOS name get_distribution iterdir !! n
          = None).
Proof.
  intros Hnd.
  assert (Hinv : ∀ n info,
    REPOS_of iterdir !! n = Some info →
    ∃ p, p ∈ iterdir ∧ name p = n ∧ String.prefix "." n = false
         ∧ info = entry_of p).
  { intros n info Hlook.
    apply foldl_add_repo_inv in Hlook as [Hempty|Hp]; [|done].
    by rewrite lookup_empty in Hempty. }
  split; [|split].
  - intros p Hp Hvisible. by apply foldl_add_repo_lookup.
  - intros n info Hlook.
    destruct (Hinv n info Hlook) as (p & Hp & <- & Hvisible & ->). simpl.
    repeat split; try done.
    + intros Hb. by apply bool_decide_eq_true in Hb.
    + intros Hd. by apply bool_decide_eq_true.
  - intros n Hhidden.
    destruct (REPOS_of iterdir !! n) as [info|] eqn:Hlook; [|done].
    destruct (Hinv n info Hlook) as (_ & _ & _ & Hvisible & _). congruence.
Qed.

Lemma install_env_not_raises repo e :
  InstallSubrepos.install_env os_environ conda_txt repo ≠ Raises e.
Proof.
  unfold InstallSubrepos.install_env.
  destruct (decide (repo = "python-lsp-server")); [|discriminate].
  destruct conda_txt as [lines|e']; [|discriminate].
  destruct (InstallSubrepos.get_python_lsp_version lines); discriminate.
Qed.

(** [install_repo], case by case. *)
Lemma install_repo_cases (REPOS : gmap string InstallSubrepos.RepoInfo)
    (repo : string) (editable : bool) :
  (REPOS !! repo = None
   ∧ install_repo REPOS repo editable
     = ([InstallSubrepos.LogWarning repo (map_to_list REPOS).*1], Returned ()))
  ∨ (is_Some (REPOS !! repo)
     ∧ ∃ events e,
         install_repo REPOS repo editable = (events, Propagates e)
         ∧ Forall (λ ev, InstallSubrepos.is_check_output ev = false) events).
Proof.
  unfold InstallSubrepos.install_repo.
  destruct (REPOS !! repo) as [repo_path|]; [right|by left].
  split; [eauto|].
  destruct (InstallSubrepos.install_env os_environ conda_txt repo)
    as [env|e|e]; [|by exists [], e|by exists [], e].
  destruct (str_format _ _) as [msg|e]; [|by exists [], e].
  simpl. exists [InstallSubrepos.LogInfo msg], AttributeError.
  split; [done|]. by repeat constructor.
Qed.

(** X17.  [install_repo] never runs [pip].  For a name that is not a key
    of [REPOS] it logs the warning and returns.  For a key of [REPOS] it
    ends with an exception before [check_output] is reached: what it takes
    from [REPOS] is the dictionary of the entry, not the path under
    ['repo'], and [as_posix] is asked of that dictionary; when the name is
    not [python-lsp-server] and the message can be formatted, the message
    is logged and the exception is [AttributeError]. *)
Theorem install_repo_never_runs_pip
    (REPOS : gmap string InstallSubrepos.RepoInfo)
    (repo : string) (editable : bool) :
  let result := install_repo REPOS repo editable in
  Forall (λ ev, InstallSubrepos.is_check_output ev = false) result.1
  ∧ (result.2 = Returned () ↔ REPOS !! repo = None)
  ∧ (REPOS !! repo = None →
     result.1 = [InstallSubrepos.LogWarning repo (map_to_list REPOS).*1])
  ∧ (is_Some (REPOS !! repo) → ∃ e, result.2 = Propagates e)
  ∧ (∀ msg,
       is_Some (REPOS !! repo) →
       repo ≠ "python-lsp-server" →
       str_format ("Installing '" +:+ repo +:+ "' from source in {} mode.")
                  (if editable then "editable" else "standard") = inl msg →
       result = ([InstallSubrepos.LogInfo msg], Propagates AttributeError)).
Proof.
  intros result. subst result.
  split; [|split; [|split; [|split]]].
  - destruct (install_repo_cases REPOS repo editable)
      as [[_ ->]|(_ & events & e & -> & Hev)]; simpl; [|done].
    by repeat constructor.
  - destruct (install_repo_cases REPOS repo editable)
      as [[Hnone ->]|([info Hsome] & events & e & -> & _)]; simpl.
    + done.
    + rewrite Hsome. split; discriminate.
  - intros Hnone.
    destruct (install_repo_cases REPOS repo editable)
      as [[_ ->]|([info Hsome] & _)]; [done|congruence].
  - intros [info Hsome].
    destruct (install_repo_cases REPOS repo editable)
      as [[Hnone _]|(_ & events & e & -> & _)]; [congruence|eauto].
  - intros msg [info Hsome] Hrepo Hmsg.
    unfold InstallSubrepos.install_repo. rewrite Hsome.
    unfold InstallSubrepos.install_env.
    rewrite decide_False by done. by rewrite Hmsg.
Qed.

(** X18.  [main] installs nothing either: it never runs [pip]; it returns
    exactly when none of the names is a key of [REPOS], having logged one
    warning for each name, in order; and it stops with the exception of
    the first name that is a key, the names behind it being left alone. *)
Theorem main_never_runs_pip
    (REPOS : gmap string InstallSubrepos.RepoInfo)
    (install : list string) (editable : bool) :
  let result := main REPOS install editable in
  Forall (λ ev, InstallSubrepos.is_check_output ev = false) result.1
  ∧ (result.2 = Returned ()
     ↔ Forall (λ repo, REPOS !! repo = None) install)
  ∧ (Forall (λ repo, REPOS !! repo = None) install →
     result.1
     = (λ repo, InstallSubrepos.LogWarning repo (map_to_list REPOS).*1)
       <$> install)
  ∧ (∀ unknown repo rest,
       install = unknown ++ repo :: rest →
       Forall (λ repo, REPOS !! repo = None) unknown →
       is_Some (REPOS !! repo) →
       result.2 = (install_repo REPOS repo editable).2
       ∧ result.1
         = ((λ repo, InstallSubrepos.LogWarning repo (map_to_list REPOS).*1)
            <$> unknown)
           ++ (install_repo REPOS repo editable).1).
Proof.
  intros result. subst result.
  split; [|split; [|split]].
  - induction install as [|repo install IH]; simpl; [constructor|].
    destruct (install_repo_cases REPOS repo editable)
      as [[_ ->]|(_ & events & e & -> & Hev)]; [|done].
    destruct (main REPOS install editable) as [more out]. simpl in *.
    by repeat constructor.
  - induction install as [|repo install IH]; simpl; [done|].
    rewrite Forall_cons.
    destruct (install_repo_cases REPOS repo editable)
      as [[Hnone ->]|([info Hsome] & events & e & -> & _)].
    + destruct (main REPOS install editable) as [more out]. simpl in *.
      rewrite IH. tauto.
    + simpl. rewrite Hsome. split; [discriminate|]. by intros [[=] _].
  - induction install as [|repo install IH]; simpl; [done|].
    intros [Hnone Hrest]%Forall_cons.
    destruct (install_repo_cases REPOS repo editable)
      as [[_ ->]|([info Hsome] & _)]; [|congruence].
    destruct (main REPOS install editable) as [more out]. simpl in *.
    by rewrite IH.
  - intros unknown repo rest -> Hunknown Hknown.
    induction Hunknown as [|r unknown Hr _ IH]; simpl.
    + destruct (install_repo_cases REPOS repo editable)
        as [[Hnone _]|(_ & events & e & -> & _)]; [|done].
      destruct Hknown. congruence.
    + destruct (install_repo_cases REPOS r editable)
        as [[_ ->]|([info Hsome] & _)]; [|congruence].
      destruct (main REPOS (unknown ++ repo :: rest) editable)
        as [more out]. simpl in *.
      destruct IH as [-> ->]. done.
Qed.

End InstallProperties.

Lemma REPOS_entries_witness :
  NoDup (id <$> ["spyder-kernels"; ".git"; "qtconsole"])
  ∧ InstallSubrepos.build_REPOS id
      (λ n, if decide (n = "qtconsole") then Some "qtconsole" else None)
      ["spyder-kernels"; ".git"; "qtconsole"] !! "qtconsole"
    = Some {| InstallSubrepos.repo := "qtconsole";
              InstallSubrepos.dist := Some "qtconsole";
              InstallSubrepos.editable := true |}
  ∧ InstallSubrepos.build_REPOS id
      (λ n, if decide (n = "qtconsole") then Some "qtconsole" else None)
      ["spyder-kernels"; ".git"; "qtconsole"] !! ".git"
    = None.
Proof.
  assert (Hnd : NoDup (id <$> ["spyder-kernels"; ".git"; "qtconsole"]))
    by (refine (bool_decide_unpack _ _); by vm_compute).
  split; [exact Hnd|].
  destruct (REPOS_entries id
              (λ n, if decide (n = "qtconsole") then Some "qtconsole" else None)
              ["spyder-kernels"; ".git"; "qtconsole"] Hnd)
    as (Hentry & _ & Hhidden).
  split.
  - apply (Hentry "qtconsole"); [|reflexivity]. right. right. by left.
  - by apply Hhidden.
Defined.

(** [install_repo] on a known name: the message is logged, [pip] is not
    run. *)
Example install_repo_known_name :
  InstallSubrepos.install_repo id "python" ∅ (inl []) (λ template mode, inl mode)
    (InstallSubrepos.build_REPOS id (λ _, None) ["spyder-kernels"])
    "spyder-kernels" true
  = ([InstallSubrepos.LogInfo "editable"], Propagates AttributeError).
Proof. by vm_compute. Qed.

(** * More on registration *)

(** X19.  The multi-option listeners of an object are exactly the methods
    gathered with more than one pair in [_conf_listen]: after [__init__],
    and whatever is added later with [add_configuration_observer], a name
    is in [_multi_option_listeners] if and only if it is a name of
    [dir(self)] that [_gather_observers] does not pass over and whose
    [_conf_listen] has more than one pair. *)
Theorem multi_option_listeners_are_the_multi_pair_methods
    (cls : ObserverClass) (adds : list Addition) (name : string) :
  name ∈ _multi_option_listeners (add_all cls adds (object (__init__ cls)))
  ↔ gathered cls name = true
    ∧ ∃ info, (name, Some info) ∈ members cls ∧ (1 < length info)%nat.
Proof.
  rewrite multi_add_all.
  unfold __init__, _merge_none_observers, _gather_observers. simpl.
  rewrite multi_gather_from. simpl. split.
  - intros [Hempty|H]; [by apply not_elem_of_empty in Hempty|done].
  - intros H. by right.
Qed.


(** * Properties of [on_configuration_change] *)

Section NotifyProperties.
Context {Value : Type}.
Variable has_attribute : string → bool.
Variable callable_in : nat → gset string → bool + ExcClass.
Variable invoke : list (@Notify.Call Value) → @Notify.Call Value → Notify.Reaction.

Local Abbreviation notify := (Notify.notify has_attribute callable_in invoke).
Local Abbreviation call_of := (Notify.call_of callable_in).
Local Abbreviation respond := (Notify.respond has_attribute callable_in invoke).
Local Abbreviation quiet := (Notify.quiet callable_in invoke).

Lemma receivers_of_apply_registrations registrations self section opt :
  receivers_of (Notify.apply_registrations registrations self) section opt
  = receivers_of self section opt
    ++ registered_for registrations section opt.
Proof.
  unfold Notify.apply_registrations.
  revert self. induction registrations as [|r rs IH]; intros self; simpl.
  - by rewrite app_nil_r.
  - rewrite IH, receivers_of_add_listener, registered_for_cons.
    by rewrite <- app_assoc.
Qed.

Lemma multi_apply_registrations registrations self :
  _multi_option_listeners (Notify.apply_registrations registrations self)
  = _multi_option_listeners self.
Proof.
  unfold Notify.apply_registrations.
  revert self. induction registrations as [|r rs IH]; intros self; simpl;
    [done|]. by rewrite IH.
Qed.

(** The membership test, and with it the call made to a receiver, depends
    on the object through [_multi_option_listeners] only. *)
Lemma call_of_same_multi self self' opt (value : Value) receiver :
  _multi_option_listeners self' = _multi_option_listeners self →
  call_of self' opt value receiver = call_of self opt value receiver.
Proof.
  intros Hm. unfold Notify.call_of, Notify.in_multi_option_listeners.
  by rewrite Hm.
Qed.

Lemma call_of_callee self opt (value : Value) receiver call :
  call_of self opt value receiver = inl call → Notify.callee call = receiver.
Proof.
  unfold Notify.call_of.
  destruct (Notify.in_multi_option_listeners callable_in self receiver);
    [|done].
  by intros [= <-].
Qed.

(** One step of the loop on a receiver that responds. *)
Lemma notify_step fuel self self0 opt section value calls index receiver call :
  _multi_option_listeners self = _multi_option_listeners self0 →
  receivers_of self section opt !! index = Some receiver →
  Notify.resolves has_attribute receiver = true →
  call_of self0 opt value receiver = inl call →
  Notify.raises (invoke calls call) = None →
  notify (S fuel) self opt section value calls index
  = notify fuel
      (Notify.apply_registrations (Notify.registers (invoke calls call)) self)
      opt section value (calls ++ [call]) (S index).
Proof.
  intros Hm Hlook Hres Hcall Hret.
  rewrite <- (call_of_same_multi self0 self) in Hcall by done.
  unfold Notify.call_of in Hcall. simpl. rewrite Hlook, Hres.
  destruct (Notify.in_multi_option_listeners callable_in self receiver)
    as [multi|e]; [|done].
  injection Hcall as <-. by rewrite Hret.
Qed.

(** The calls made so far stay, and the loop adds to them. *)
Lemma notify_extends fuel self opt section value calls index :
  ∃ more, (notify fuel self opt section value calls index).1.2 = calls ++ more.
Proof.
  revert self calls index.
  induction fuel as [|fuel IH]; intros self calls index; simpl.
  - exists []. by rewrite app_nil_r.
  - destruct (receivers_of self section opt !! index) as [receiver|];
      [|exists []; by rewrite app_nil_r].
    destruct (Notify.resolves has_attribute receiver);
      [|exists []; by rewrite app_nil_r].
    destruct (Notify.in_multi_option_listeners callable_in self receiver)
      as [multi|e]; [|exists []; by rewrite app_nil_r].
    destruct (Notify.raises _) as [e|]; [by eexists [_]|].
    destruct (IH (Notify.apply_registrations
                    (Notify.registers
                       (invoke calls (Notify.call_with multi opt value receiver)))
                    self)
                 (calls ++ [Notify.call_with multi opt value receiver])
                 (S index)) as [more ->].
    eexists (_ :: more). by rewrite <- app_assoc.
Qed.

(** The loop reaches every receiver that is in the list when it starts, as
    long as those before it respond, whatever they register. *)
Lemma notify_reaches fuel self self0 opt section value calls index
    receivers k receiver call :
  _multi_option_listeners self = _multi_option_listeners self0 →
  receivers `prefix_of` receivers_of self section opt →
  respond self0 opt value receivers →
  receivers !! k = Some receiver →
  call_of self0 opt value receiver = inl call →
  (index ≤ k < index + fuel)%nat →
  call ∈ (notify fuel self opt section value calls index).1.2.
Proof.
  intros Hm Hprefix Hok Hk Hcall.
  revert self calls index Hm Hprefix.
  induction fuel as [|fuel IH]; intros self calls index Hm Hprefix Hrange;
    [lia|].
  assert (Hlen : (index < length receivers)%nat).
  { apply lookup_lt_Some in Hk. lia. }
  destruct (lookup_lt_is_Some_2 receivers index Hlen) as [r Hr].
  assert (Hlive : receivers_of self section opt !! index = Some r)
    by (by eapply prefix_lookup_Some).
  destruct (Hok r) as (Hres & c & Hc & Hret);
    [by eapply list_elem_of_lookup_2|].
  rewrite (notify_step fuel self self0 _ _ _ _ _ r c) by done.
  destruct (decide (index = k)) as [->|Hne].
  - assert (r = receiver) as -> by congruence.
    assert (c = call) as -> by congruence.
    destruct (notify_extends fuel
                (Notify.apply_registrations
                   (Notify.registers (invoke calls call)) self)
                opt section value (calls ++ [call]) (S k)) as [more ->].
    apply elem_of_app. left. apply elem_of_app. right. by left.
  - apply IH; [by rewrite multi_apply_registrations| |lia].
    rewrite receivers_of_apply_registrations.
    by apply prefix_app_r.
Qed.

(** With receivers that respond and register nothing for the pair, the
    round is one call to each receiver of the list, in order, and a
    return. *)
Lemma notify_round fuel self self0 opt section value calls index receivers :
  _multi_option_listeners self = _multi_option_listeners self0 →
  receivers_of self section opt = receivers →
  respond self0 opt value receivers →
  quiet self0 opt section value receivers →
  (length receivers - index < fuel)%nat →
  ∃ self' made,
    notify fuel self opt section value calls index
    = (self', calls ++ made, Some (Returned ()))
    ∧ inl <$> made = call_of self0 opt value <$> drop index receivers
    ∧ receivers_of self' section opt = receivers
    ∧ _multi_option_listeners self' = _multi_option_listeners self0.
Proof.
  intros Hm Hlist Hok Hquiet.
  revert self calls index Hm Hlist.
  induction fuel as [|fuel IH]; intros self calls index Hm Hlist Hfuel.
  - exfalso. lia.
  - destruct (receivers !! index) as [r|] eqn:Hr.
    + destruct (Hok r) as (Hres & c & Hc & Hret);
        [by eapply list_elem_of_lookup_2|].
      rewrite (notify_step fuel self self0 _ _ _ _ _ r c)
        by (by rewrite ?Hlist).
      assert (Hkeep : receivers_of
                (Notify.apply_registrations
                   (Notify.registers (invoke calls c)) self) section opt
              = receivers).
      { rewrite receivers_of_apply_registrations, Hlist.
        rewrite (Hquiet r c calls); [by rewrite app_nil_r| |done].
        by eapply list_elem_of_lookup_2. }
      destruct (IH _ (calls ++ [c]) (S index)
                  (eq_trans (multi_apply_registrations _ _) Hm) Hkeep)
        as (self' & made & -> & Hmade & Hfinal & Hmulti).
      { apply lookup_lt_Some in Hr. lia. }
      exists self', (c :: made). split; [by rewrite <- app_assoc|].
      split; [|done].
      rewrite (drop_S _ _ _ Hr), !fmap_cons. by rewrite Hmade, Hc.
    + exists self, []. simpl. rewrite Hlist, Hr, app_nil_r.
      split; [done|]. split; [|done].
      apply lookup_ge_None in Hr. by rewrite drop_ge.
Qed.

(** Every call the loop makes is the call for its receiver; the registry
    only grows, at the end of its lists; and the receivers called are, in
    order, those the list of the pair holds from [index] on. *)
Lemma notify_trace fuel self opt section value calls index :
  let result := notify fuel self opt section value calls index in
  ∃ made,
    result.1.2 = calls ++ made
    ∧ _multi_option_listeners result.1.1 = _multi_option_listeners self
    ∧ (∀ s o, receivers_of self s o `prefix_of` receivers_of result.1.1 s o)
    ∧ Forall (λ call, call_of self opt value (Notify.callee call) = inl call)
             made
    ∧ Notify.callee <$> made
      `prefix_of` drop index (receivers_of result.1.1 section opt)
    ∧ (result.2 = Some (Returned ()) →
       Notify.callee <$> made
       = drop index (receivers_of result.1.1 section opt)).
Proof.
  revert self calls index.
  induction fuel as [|fuel IH]; intros self calls index; simpl.
  { exists []. rewrite app_nil_r. repeat split; try done.
    apply prefix_nil. }
  destruct (receivers_of self section opt !! index) as [receiver|] eqn:Hr.
  2:{ exists []. rewrite app_nil_r. simpl.
      apply lookup_ge_None in Hr. rewrite drop_ge by done.
      repeat split; done. }
  destruct (Notify.resolves has_attribute receiver).
  2:{ exists []. rewrite app_nil_r. simpl.
      repeat split; try done. apply prefix_nil. }
  destruct (Notify.in_multi_option_listeners callable_in self receiver)
    as [multi|e] eqn:Htest.
  2:{ exists []. rewrite app_nil_r. simpl.
      repeat split; try done. apply prefix_nil. }
  set (call := Notify.call_with multi opt value receiver).
  set (self1 := Notify.apply_registrations
                  (Notify.registers (invoke calls call)) self).
  assert (Hcall : call_of self opt value (Notify.callee call) = inl call).
  { unfold Notify.call_of. simpl. by rewrite Htest. }
  assert (Hgrow1 : ∀ s o, receivers_of self s o `prefix_of` receivers_of self1 s o).
  { intros s o. unfold self1. rewrite receivers_of_apply_registrations.
    by apply prefix_app_r. }
  assert (Hm1 : _multi_option_listeners self1 = _multi_option_listeners self)
    by apply multi_apply_registrations.
  destruct (Notify.raises (invoke calls call)) as [e|].
  - exists [call]. simpl. split; [done|]. split; [done|]. split; [done|].
    split; [by repeat constructor|]. split; [|done].
    rewrite (drop_S _ receiver).
    + apply prefix_cons, prefix_nil.
    + by eapply prefix_lookup_Some.
  - specialize (IH self1 (calls ++ [call]) (S index)). simpl in IH.
    destruct (notify fuel self1 opt section value (calls ++ [call]) (S index))
      as [[self' calls'] fin]. simpl in *.
    destruct IH as (made & -> & Hm & Hgrow & Hcalls & Hprefix & Hall).
    exists (call :: made). split; [by rewrite <- app_assoc|].
    split; [congruence|]. split.
    { intros s o. etrans; [apply Hgrow1|apply Hgrow]. }
    split.
    { constructor; [done|].
      eapply Forall_impl; [exact Hcalls|]. intros c Hc. simpl in Hc.
      by rewrite <- (call_of_same_multi self self1). }
    assert (Hdrop : drop index (receivers_of self' section opt)
                    = receiver :: drop (S index) (receivers_of self' section opt)).
    { apply drop_S. eapply prefix_lookup_Some; [exact Hr|].
      etrans; [apply Hgrow1|apply Hgrow]. }
    rewrite Hdrop, fmap_cons.
    change (Notify.callee call) with receiver. split.
    + by apply prefix_cons.
    + intros Hfin. by rewrite Hall.
Qed.

End NotifyProperties.

Section NotifyClaims.
Context {Value : Type}.
Variable has_attribute : string → bool.
Variable callable_in : nat → gset string → bool + ExcClass.
Variable invoke : list (@Notify.Call Value) → @Notify.Call Value → Notify.Reaction.

(** C8.  When no listener is registered for the pair [(section, option)],
    [on_configuration_change] returns normally: it calls no receiver,
    raises nothing, whatever the receivers of other pairs would do, and
    the object, [_configuration_listeners] included, is as before.  (The
    loop ends at its first look at the list.) *)
Theorem on_configuration_change_without_listener
    (self : ObserverState) (opt : ConfigurationKey) (section : SectionKey)
    (value : Value) (fuel : nat) :
  receivers_of self section opt = [] →
  Notify.on_configuration_change has_attribute callable_in invoke (S fuel)
    self opt section value
  = (self, [], Some (Returned ())).
Proof.
  unfold Notify.on_configuration_change. simpl. by intros ->.
Qed.

(** C1.  Take an object after [__init__] and any number of calls of
    [add_configuration_observer], a section name and an option, and let
    the receivers stored for the pair respond (each is found, the test
    [receiver in self._multi_option_listeners] succeeds on it, and it
    returns) without registering a listener for the pair.  Then
    [on_configuration_change] calls the receivers stored for the pair in
    [_configuration_listeners], each once per registration and in the order
    of the list, and returns.  The list holds every receiver registered for
    the pair, in the order of the registrations (behind the receivers
    declared without a section, which [__init__] has put in front when the
    section is [CONF_SECTION]).  A receiver that the test finds not to be a
    multi-option listener is called with the new value alone. *)
Theorem on_configuration_change_fans_out
    (cls : ObserverClass) (adds : list Addition)
    (section : string) (opt : ConfigurationKey) (value : Value)
    (fuel : nat) :
  let self := add_all cls adds (object (__init__ cls)) in
  let registered :=
    registered_for (gather_log cls ++ add_log cls adds) (Some section) opt in
  let merged :=
    if decide (CONF_SECTION cls = Some section)
    then registered_for (gather_log cls) None opt else [] in
  Notify.respond has_attribute callable_in invoke self opt value
                 (merged ++ registered) →
  Notify.quiet callable_in invoke self opt (Some section) value
               (merged ++ registered) →
  (length (merged ++ registered) < fuel)%nat →
  receivers_of self (Some section) opt = merged ++ registered
  ∧ ∃ self' calls,
      Notify.on_configuration_change has_attribute callable_in invoke fuel
        self opt (Some section) value
      = (self', calls, Some (Returned ()))
      ∧ Notify.callee <$> calls = merged ++ registered
      ∧ inl <$> calls
        = Notify.call_of callable_in self opt value <$> (merged ++ registered)
      ∧ (∀ call,
           call ∈ calls →
           Notify.in_multi_option_listeners callable_in self
             (Notify.callee call) = inl false →
           Notify.call_args call = Notify.WithValue value)
      ∧ receivers_of self' (Some section) opt = merged ++ registered.
Proof.
  intros self registered merged Hok Hquiet Hfuel.
  assert (Hrecv : receivers_of self (Some section) opt = merged ++ registered)
    by apply receivers_of_object.
  split; [exact Hrecv|].
  destruct (notify_round has_attribute callable_in invoke fuel self self
              opt (Some section) value [] 0 (merged ++ registered)
              eq_refl Hrecv Hok Hquiet)
    as (self' & calls & Hrun & Hcalls & Hfinal & _); [lia|].
  rewrite drop_0 in Hcalls. simpl in Hrun.
  exists self', calls. split; [exact Hrun|].
  assert (Heach : ∀ call, call ∈ calls →
    Notify.call_of callable_in self opt value (Notify.callee call) = inl call).
  { clear Hrun Hfinal Hrecv Hok Hquiet Hfuel.
    revert calls Hcalls.
    induction (merged ++ registered) as [|r l IH]; intros [|c calls] Hcalls;
      simpl in Hcalls; try done.
    - intros call H. by apply elem_of_nil in H.
    - injection Hcalls as Hc Hrest.
      intros call [->|Hin]%elem_of_cons; [|by apply (IH calls Hrest)].
      symmetry in Hc.
      by rewrite (call_of_callee callable_in _ _ _ _ _ Hc). }
  split; [|split; [exact Hcalls|split; [|exact Hfinal]]].
  - clear Hrun Hfinal Hrecv Hok Hquiet Hfuel Heach.
    revert calls Hcalls.
    induction (merged ++ registered) as [|r l IH]; intros [|c calls] Hcalls;
      simpl in Hcalls; try done.
    injection Hcalls as Hc Hrest. rewrite fmap_cons.
    symmetry in Hc.
    rewrite (call_of_callee callable_in _ _ _ _ _ Hc). f_equal.
    by apply (IH calls Hrest).
  - intros call Hin Hsingle. apply Heach in Hin.
    unfold Notify.call_of in Hin. rewrite Hsingle in Hin.
    by injection Hin as <-.
Qed.

End NotifyClaims.

Lemma all_respond (self : ObserverState) opt value receivers :
  Notify.respond all_found functions all_return self opt value receivers.
Proof.
  intros receiver _. split; [by destruct receiver|].
  destruct receiver; eexists; (split; [reflexivity|done]).
Qed.

Lemma all_quiet (self : ObserverState) opt section value receivers :
  Notify.quiet functions all_return self opt section value receivers.
Proof. by intros receiver call calls _ _. Qed.

Lemma on_configuration_change_without_listener_witness :
  receivers_of (object (__init__ editor_class)) (Some "editor")
               (OptionName "theme") = []
  ∧ Notify.on_configuration_change all_found functions all_return 1
      (object (__init__ editor_class)) (OptionName "theme") (Some "editor") 7
    = (object (__init__ editor_class), [], Some (Returned ())).
Proof.
  assert (H : receivers_of (object (__init__ editor_class)) (Some "editor")
                           (OptionName "theme") = [])
    by (by vm_compute).
  split; [exact H|].
  exact (on_configuration_change_without_listener all_found functions
           all_return (object (__init__ editor_class)) (OptionName "theme")
           (Some "editor") 7 0 H).
Defined.

Lemma on_configuration_change_fans_out_witness :
  (length (registered_for (gather_log editor_class) None (OptionName "font")
           ++ registered_for
                (gather_log editor_class
                 ++ add_log editor_class
                      [ {| add_func := Callable 0;
                           add_option := OptionName "font";
                           add_section := None |} ])
                (Some "editor") (OptionName "font")) < 4)%nat
  ∧ ∃ self',
      Notify.on_configuration_change all_found functions all_return 4
        (add_all editor_class
           [ {| add_func := Callable 0; add_option := OptionName "font";
                add_section := None |} ]
           (object (__init__ editor_class)))
        (OptionName "font") (Some "editor") 12
      = (self',
         [ {| Notify.callee := MethodName "on_change";
              Notify.call_args :=
                Notify.WithOptionAndValue (OptionName "font") 12 |};
           {| Notify.callee := MethodName "on_font";
              Notify.call_args := Notify.WithValue 12 |};
           {| Notify.callee := Callable 0;
              Notify.call_args := Notify.WithValue 12 |} ],
         Some (Returned ())).
Proof.
  assert (Hfuel :
    (length (registered_for (gather_log editor_class) None (OptionName "font")
             ++ registered_for
                  (gather_log editor_class
                   ++ add_log editor_class
                        [ {| add_func := Callable 0;
                             add_option := OptionName "font";
                             add_section := None |} ])
                  (Some "editor") (OptionName "font")) < 4)%nat)
    by (vm_compute; lia).
  split; [exact Hfuel|].
  destruct (on_configuration_change_fans_out all_found functions all_return
              editor_class
              [ {| add_func := Callable 0; add_option := OptionName "font";
                   add_section := None |} ]
              "editor" (OptionName "font") 12 4
              (all_respond _ _ _ _) (all_quiet _ _ _ _ _) Hfuel)
    as (_ & self' & calls & Hrun & _).
  exists self'. rewrite Hrun. f_equal. f_equal.
  apply (f_equal (λ r, r.1.2)) in Hrun. simpl in Hrun. rewrite <- Hrun.
  by vm_compute.
Defined.

(** C1 as it is worded, for the receivers of one list: they would be
    called in the order of their registrations.  It fails for
    [two_listener_class]: [a_font] is registered first, for
    [('editor', 'font')], and [b_change] second, without a section;
    [_merge_none_observers] puts [b_change] in front, and a change of
    [font] in [editor] calls [b_change] before [a_font]. *)
Lemma registration_order_counterexample :
  registered_in_order two_listener_class (gather_log two_listener_class)
                      "editor" (OptionName "font")
  = [MethodName "a_font"; MethodName "b_change"]
  ∧ (Notify.on_configuration_change all_found functions all_return 3
       (object (__init__ two_listener_class))
       (OptionName "font") (Some "editor") 12).2
    = Some (Returned ())
  ∧ Notify.callee <$>
      (Notify.on_configuration_change all_found functions all_return 3
         (object (__init__ two_listener_class))
         (OptionName "font") (Some "editor") 12).1.2
    = [MethodName "b_change"; MethodName "a_font"]
  ∧ Notify.callee <$>
      (Notify.on_configuration_change all_found functions all_return 3
         (object (__init__ two_listener_class))
         (OptionName "font") (Some "editor") 12).1.2
    ≠ registered_in_order two_listener_class (gather_log two_listener_class)
                          "editor" (OptionName "font").
Proof.
  split; [by vm_compute|]. split; [by vm_compute|]. split; [by vm_compute|].
  vm_compute. discriminate.
Qed.

Section MultiOptionClaim.
Context {Value : Type}.
Variable has_attribute : string → bool.
Variable callable_in : nat → gset string → bool + ExcClass.
Variable invoke : list (@Notify.Call Value) → @Notify.Call Value → Notify.Reaction.

Lemma on_configuration_change_calls fuel self opt section (value : Value) call :
  call ∈ (Notify.on_configuration_change has_attribute callable_in invoke
            fuel self opt section value).1.2 →
  Notify.call_of callable_in self opt value (Notify.callee call) = inl call.
Proof.
  unfold Notify.on_configuration_change.
  destruct (notify_trace has_attribute callable_in invoke fuel self opt
              section value [] 0) as (made & -> & _ & _ & Hcalls & _).
  rewrite Forall_forall in Hcalls. apply Hcalls.
Qed.

(** C7.  Take a method of the class that [_gather_observers] looks at,
    with [_conf_listen = info], and the object after [__init__] and any
    later [add_configuration_observer].  Every call
    [on_configuration_change] makes to the method has the arguments
    [(option, value)] when [info] has more than one pair and [(value)]
    alone when it has exactly one, whatever the receivers do and however
    far the round gets.  And the method is called that way on a change of
    each pair of [info] (a pair without a section standing for
    [CONF_SECTION]), when the receivers of the pair respond, whatever they
    register. *)
Theorem multi_option_listener_arguments
    (cls : ObserverClass) (adds : list Addition)
    (method_name : string) (info : list (SectionKey * ConfigurationKey))
    (opt : ConfigurationKey) (value : Value) :
  NoDup (members cls).*1 →
  (method_name, Some info) ∈ members cls →
  gathered cls method_name = true →
  let self := add_all cls adds (object (__init__ cls)) in
  let expected :=
    {| Notify.callee := MethodName method_name;
       Notify.call_args :=
         if bool_decide (1 < length info)%nat
         then Notify.WithOptionAndValue opt value
         else Notify.WithValue value |} in
  (∀ fuel section call,
     call ∈ (Notify.on_configuration_change has_attribute callable_in invoke
               fuel self opt section value).1.2 →
     Notify.callee call = MethodName method_name →
     call = expected)
  ∧ (∀ declared (section : string) fuel,
       (declared, opt) ∈ info →
       match declared with None => CONF_SECTION cls | Some s => Some s end
       = Some section →
       Notify.respond has_attribute callable_in invoke self opt value
                      (receivers_of self (Some section) opt) →
       (length (receivers_of self (Some section) opt) ≤ fuel)%nat →
       expected ∈ (Notify.on_configuration_change has_attribute callable_in
                     invoke fuel self opt (Some section) value).1.2).
Proof.
  intros Hnd Hin Hg self expected.
  assert (Hcall : Notify.call_of callable_in self opt value
                    (MethodName method_name) = inl expected).
  { unfold Notify.call_of, expected. simpl.
    unfold self. by rewrite (multi_of_object cls adds method_name info). }
  split.
  - intros fuel section call Hcalls Hcallee.
    apply on_configuration_change_calls in Hcalls.
    rewrite Hcallee, Hcall in Hcalls. by injection Hcalls.
  - intros declared section fuel Hpair Heff Hok Hfuel.
    assert (Hstored : MethodName method_name
                      ∈ receivers_of self (Some section) opt).
    { unfold self. rewrite receivers_of_object.
      pose proof (registered_by_gather cls method_name info declared opt
                    Hin Hg Hpair) as Hreg.
      destruct declared as [s|].
      - injection Heff as ->. apply elem_of_app. right.
        rewrite registered_for_app. apply elem_of_app. by left.
      - apply elem_of_app. left. by rewrite decide_True. }
    apply list_elem_of_lookup in Hstored as [k Hk].
    unfold Notify.on_configuration_change.
    eapply (notify_reaches has_attribute callable_in invoke fuel self self
              opt (Some section) value [] 0
              (receivers_of self (Some section) opt) k);
      [done|done|exact Hok|exact Hk|exact Hcall|].
    apply lookup_lt_Some in Hk. lia.
Qed.

End MultiOptionClaim.

Lemma multi_option_listener_arguments_witness :
  NoDup (members editor_class).*1
  ∧ ("on_change", Some [(None, OptionName "font"); (None, OptionName "wrap")])
    ∈ members editor_class
  ∧ gathered editor_class "on_change" = true
  ∧ {| Notify.callee := MethodName "on_change";
       Notify.call_args := Notify.WithOptionAndValue (OptionName "wrap") 80 |}
    ∈ (Notify.on_configuration_change all_found functions all_return 1
         (object (__init__ editor_class)) (OptionName "wrap")
         (Some "editor") 80).1.2.
Proof.
  assert (Hnd : NoDup (members editor_class).*1)
    by (refine (bool_decide_unpack _ _); by vm_compute).
  assert (Hin : ("on_change",
                 Some [(None, OptionName "font"); (None, OptionName "wrap")])
                ∈ members editor_class) by (by left).
  assert (Hg : gathered editor_class "on_change" = true) by reflexivity.
  split; [exact Hnd|]. split; [exact Hin|]. split; [exact Hg|].
  destruct (multi_option_listener_arguments all_found functions all_return
              editor_class [] "on_change"
              [(None, OptionName "font"); (None, OptionName "wrap")]
              (OptionName "wrap") 80 Hnd Hin Hg) as [_ Hcalled].
  apply (Hcalled None "editor" 1%nat).
  - right. by left.
  - reflexivity.
  - apply all_respond.
  - vm_compute. lia.
Defined.

(** * The model at work (2) *)

(** A receiver that raises ends the loop: the receivers after it are not
    called and the exception passes through. *)
Example raising_receiver_stops_the_loop :
  Notify.on_configuration_change all_found functions on_change_raises 5
    (object (__init__ editor_class)) (OptionName "font") (Some "editor") 12
  = (object (__init__ editor_class),
     [ {| Notify.callee := MethodName "on_change";
          Notify.call_args :=
            Notify.WithOptionAndValue (OptionName "font") 12 |} ],
     Some (Propagates (Builtin "ValueError"))).
Proof. by vm_compute. Qed.

(** A callable that cannot be hashed is not called: the membership test
    raises, after the receivers in front of it were called. *)
Example unhashable_callable_ends_the_round :
  (Notify.on_configuration_change all_found one_unhashable all_return 5
     (add_all editor_class
        [ {| add_func := Callable 7; add_option := OptionName "theme";
             add_section := Some "appearance" |};
          {| add_func := Callable 8; add_option := OptionName "theme";
             add_section := Some "appearance" |} ]
        (object (__init__ editor_class)))
     (OptionName "theme") (Some "appearance") 12).2
  = Some (Propagates TypeError)
  ∧ (Notify.on_configuration_change all_found one_unhashable all_return 5
       (add_all editor_class
          [ {| add_func := Callable 7; add_option := OptionName "theme";
               add_section := Some "appearance" |};
            {| add_func := Callable 8; add_option := OptionName "theme";
               add_section := Some "appearance" |} ]
          (object (__init__ editor_class)))
       (OptionName "theme") (Some "appearance") 12).1.2
    = [ {| Notify.callee := MethodName "on_theme";
           Notify.call_args := Notify.WithValue 12 |} ].
Proof. split; by vm_compute. Qed.

(** A receiver registered for the pair during the round is called in the
    same round; here [on_font] registers the callable 3 each time it is
    called. *)
Example receiver_added_during_the_round_is_called :
  Notify.callee <$>
    (Notify.on_configuration_change all_found functions on_font_registers 5
       (object (__init__ editor_class)) (OptionName "font") (Some "editor")
       12).1.2
  = [MethodName "on_change"; MethodName "on_font"; Callable 3]
  ∧ (Notify.on_configuration_change all_found functions on_font_registers 5
       (object (__init__ editor_class)) (OptionName "font") (Some "editor")
       12).2
    = Some (Returned ()).
Proof. split; by vm_compute. Qed.

(** * [on_configuration_change] when receivers fail or register *)

Section NotifyFailures.
Context {Value : Type}.
Variable has_attribute : string → bool.
Variable callable_in : nat → gset string → bool + ExcClass.
Variable invoke : list (@Notify.Call Value) → @Notify.Call Value → Notify.Reaction.

Local Abbreviation notify := (Notify.notify has_attribute callable_in invoke).

(** Why the loop ends with an exception: the last call made raised it, or
    the receiver the loop had come to was not found, or the membership
    test on it raised.  It never ends with a [raise] of the method's
    own. *)
Lemma notify_failure fuel self self0 opt section value calls index :
  _multi_option_listeners self = _multi_option_listeners self0 →
  index = length calls →
  let result := notify fuel self opt section value calls index in
  (∀ e, result.2 ≠ Some (Raises e))
  ∧ (∀ e, result.2 = Some (Propagates e) →
       (∃ before call,
          result.1.2 = before ++ [call]
          ∧ Notify.raises (invoke before call) = Some e)
       ∨ (∃ receiver,
            receivers_of result.1.1 section opt !! length result.1.2
            = Some receiver
            ∧ ((Notify.resolves has_attribute receiver = false
                ∧ e = AttributeError)
               ∨ (Notify.resolves has_attribute receiver = true
                  ∧ Notify.call_of callable_in self0 opt value receiver
                    = inr e)))).
Proof.
  revert self calls index.
  induction fuel as [|fuel IH]; intros self calls index Hm Hindex; simpl.
  { split; [done|]. intros e [=]. }
  destruct (receivers_of self section opt !! index) as [receiver|] eqn:Hr.
  2:{ split; [done|]. intros e [=]. }
  destruct (Notify.resolves has_attribute receiver) eqn:Hres.
  2:{ simpl. split; [done|]. intros e [= <-]. right. exists receiver.
      rewrite <- Hindex. split; [done|]. by left. }
  destruct (Notify.in_multi_option_listeners callable_in self receiver)
    as [multi|e0] eqn:Htest.
  2:{ simpl. split; [done|]. intros e [= <-]. right. exists receiver.
      rewrite <- Hindex. split; [done|]. right. split; [done|].
      rewrite <- (call_of_same_multi callable_in self0 self) by done.
      unfold Notify.call_of. by rewrite Htest. }
  destruct (Notify.raises (invoke calls (Notify.call_with multi opt value
                                           receiver))) as [e0|] eqn:Hraise.
  - simpl. split; [done|]. intros e [= <-]. left. eauto.
  - apply IH.
    + by rewrite multi_apply_registrations.
    + rewrite length_app. simpl. lia.
Qed.

(** The object after the loop is the object before it with the
    registrations the calls made. *)
Lemma notify_registry fuel self opt section value calls index :
  ∃ registrations,
    (notify fuel self opt section value calls index).1.1
    = Notify.apply_registrations registrations self
    ∧ Forall (λ r, ∃ before call, r ∈ Notify.registers (invoke before call))
             registrations.
Proof.
  revert self calls index.
  induction fuel as [|fuel IH]; intros self calls index; simpl.
  { by exists []. }
  destruct (receivers_of self section opt !! index) as [receiver|];
    [|by exists []].
  destruct (Notify.resolves has_attribute receiver); [|by exists []].
  destruct (Notify.in_multi_option_listeners callable_in self receiver)
    as [multi|e]; [|by exists []].
  set (call := Notify.call_with multi opt value receiver).
  assert (Hown : Forall (λ r, ∃ before call0,
                           r ∈ Notify.registers (invoke before call0))
                        (Notify.registers (invoke calls call))).
  { apply Forall_forall. intros r Hr. eauto. }
  destruct (Notify.raises (invoke calls call)) as [e|].
  - simpl. eauto.
  - destruct (IH (Notify.apply_registrations
                    (Notify.registers (invoke calls call)) self)
                 (calls ++ [call]) (S index)) as (more & -> & Hmore).
    exists (Notify.registers (invoke calls call) ++ more). split.
    + unfold Notify.apply_registrations. by rewrite foldl_app.
    + by apply Forall_app.
Qed.


(** X9.  The lookup of a stored receiver does not fail on an object that
    holds what [__init__] gathered and callables: when [getattr] finds
    every decorated method of the class, every callable can be hashed and
    compared, the observers added are callables and the receivers register
    callables only, a round that ends with an exception ends with the
    exception raised by the last receiver it called. *)
Theorem stored_receivers_are_found
    (cls : ObserverClass) (adds : list Addition)
    (section : SectionKey) (opt : ConfigurationKey) (value : Value)
    (fuel : nat) :
  Forall (λ a, ∃ id, add_func a = Callable id) adds →
  (∀ name info, (name, Some info) ∈ members cls → has_attribute name = true) →
  (∀ id names, ∃ multi, callable_in id names = inl multi) →
  (∀ before call r,
     r ∈ Notify.registers (invoke before call) → ∃ id, reg_func r = Callable id) →
  let self := add_all cls adds (object (__init__ cls)) in
  let result :=
    Notify.on_configuration_change has_attribute callable_in invoke fuel
      self opt section value in
  (∀ receiver,
     receiver ∈ receivers_of result.1.1 section opt →
     Notify.resolves has_attribute receiver = true
     ∧ ∃ call, Notify.call_of callable_in self opt value receiver = inl call)
  ∧ (∀ e, result.2 = Some (Propagates e) →
       ∃ before call,
         result.1.2 = before ++ [call]
         ∧ Notify.raises (invoke before call) = Some e).
Proof.
  intros Hadds Hattr Hhash Hregs self result.
  assert (Hfound : ∀ receiver,
    receiver ∈ receivers_of result.1.1 section opt →
    Notify.resolves has_attribute receiver = true
    ∧ ∃ call, Notify.call_of callable_in self opt value receiver = inl call).
  { intros receiver Hin.
    destruct receiver as [name|id].
    - split; [|unfold Notify.call_of; simpl; eauto].
      subst result. unfold Notify.on_configuration_change in Hin.
      destruct (notify_registry fuel self opt section value [] 0)
        as (registrations & Hself' & Hall).
      rewrite Hself' in Hin.
      rewrite receivers_of_apply_registrations in Hin.
      apply elem_of_app in Hin as [Hin|Hin].
      + simpl.
        destruct (stored_names_origin cls adds section opt name Hadds Hin)
          as (info & Hmem & _). by apply (Hattr name info).
      + exfalso. unfold registered_for in Hin.
        apply list_elem_of_fmap in Hin as (r & Hfunc & Hr).
        apply list_elem_of_filter in Hr as [_ Hr].
        rewrite Forall_forall in Hall.
        destruct (Hall r Hr) as (before & call & Hreg).
        destruct (Hregs before call r Hreg) as [id Hid]. congruence.
    - split; [done|]. unfold Notify.call_of. simpl.
      destruct (Hhash id (_multi_option_listeners self)) as [multi ->].
      eauto. }
  split; [exact Hfound|].
  intros e He. subst result. unfold Notify.on_configuration_change in *.
  destruct (notify_failure fuel self self opt section value [] 0
              eq_refl eq_refl) as [_ Hfail].
  destruct (Hfail e He) as [Hlast|(receiver & Hlook & Hcase)]; [done|].
  exfalso. apply list_elem_of_lookup_2 in Hlook.
  destruct (Hfound receiver Hlook) as (Hres & call & Hcall).
  destruct Hcase as [(Hno & _)|(_ & Hno)]; congruence.
Qed.

(** X20.  [add_configuration_observer] subscribes where it stores: the
    pair it hands to [CONF.observe_configuration] is the option given and
    the section given, or [CONF_SECTION] when none is given, and [func] is
    the last receiver stored for this very pair; so when the manager
    reports a change of the pair and the receivers of the pair respond and
    register nothing for it, the last call of [on_configuration_change] is
    the call to [func], and the method returns. *)
Theorem add_configuration_observer_subscribes_where_it_stores
    (cls : ObserverClass) (func : Receiver) (opt : ConfigurationKey)
    (section : SectionKey) (self : ObserverState) (value : Value)
    (fuel : nat) :
  let added := add_configuration_observer cls func opt section self in
  let self' := added.1 in
  let observed := added.2 in
  observed
  = (match section with None => CONF_SECTION cls | Some s => Some s end, opt)
  ∧ last (receivers_of self' observed.1 observed.2) = Some func
  ∧ (Notify.respond has_attribute callable_in invoke self' opt value
       (receivers_of self' observed.1 observed.2) →
     Notify.quiet callable_in invoke self' opt observed.1 value
       (receivers_of self' observed.1 observed.2) →
     (length (receivers_of self' observed.1 observed.2) < fuel)%nat →
     ∃ call,
       last (Notify.on_configuration_change has_attribute callable_in invoke
               fuel self' observed.2 observed.1 value).1.2 = Some call
       ∧ Notify.call_of callable_in self' opt value func = inl call
       ∧ (Notify.on_configuration_change has_attribute callable_in invoke
            fuel self' observed.2 observed.1 value).2
         = Some (Returned ())).
Proof.
  intros added self' observed. subst observed self' added.
  unfold add_configuration_observer. cbn [fst snd].
  set (sec := match section with None => CONF_SECTION cls | Some s => Some s end).
  set (self' := _add_listener func opt sec self).
  assert (Hlast : last (receivers_of self' sec opt) = Some func).
  { unfold self'. rewrite receivers_of_add_listener, decide_True by done.
    apply last_snoc. }
  split; [done|]. split; [exact Hlast|].
  intros Hok Hquiet Hfuel.
  destruct (notify_round has_attribute callable_in invoke fuel self' self'
              opt sec value [] 0 (receivers_of self' sec opt)
              eq_refl eq_refl Hok Hquiet)
    as (final & made & Hrun & Hmade & _); [lia|].
  unfold Notify.on_configuration_change. rewrite Hrun. cbn [fst snd].
  rewrite drop_0 in Hmade. simpl.
  assert (Hl : last (inl (B:=ExcClass) <$> made)
               = Some (Notify.call_of callable_in self' opt value func)).
  { rewrite Hmade, fmap_last, Hlast. done. }
  rewrite fmap_last in Hl.
  destruct (last made) as [call|]; [|done].
  exists call. simpl in Hl. injection Hl as Hl. done.
Qed.

End NotifyFailures.

Lemma stored_receivers_are_found_witness :
  Forall (λ a, ∃ id, add_func a = Callable id) []
  ∧ (Notify.on_configuration_change all_found functions on_change_raises 5
       (object (__init__ editor_class)) (OptionName "font") (Some "editor")
       12).2 = Some (Propagates (Builtin "ValueError"))
  ∧ ∃ before call,
      (Notify.on_configuration_change all_found functions on_change_raises 5
         (object (__init__ editor_class)) (OptionName "font") (Some "editor")
         12).1.2 = before ++ [call]
      ∧ Notify.raises (on_change_raises before call)
        = Some (Builtin "ValueError").
Proof.
  split; [constructor|]. split; [by vm_compute|].
  refine (proj2 (stored_receivers_are_found all_found functions
                   on_change_raises editor_class [] (Some "editor")
                   (OptionName "font") 12 5 _ _ _ _)
                (Builtin "ValueError") _).
  - constructor.
  - reflexivity.
  - intros id names. by exists false.
  - intros before call r. unfold on_change_raises. simpl.
    intros H. by apply elem_of_nil in H.
  - by vm_compute.
Defined.
